(** * TagService: last-write-wins tag storage over a document store

    A shallow embedding of [src/tag.ts].  Documents are JavaScript objects,
    modelled as finite maps from field names to values; the two Mongoose
    models [tagModel] and [tagSharedModel] are collections (lists of
    documents in natural order) held in an explicit world that every
    service method threads through.  The query objects the service builds
    are kept as data ([Query]) and interpreted by [matches], so that each
    method below can be read next to the TypeScript it comes from. *)

From stdpp Require Import gmap strings list fin_maps.

Open Scope string_scope.
Open Scope list_scope.
Open Scope Z_scope.

(** ** Values and documents *)

(** The JavaScript values that occur in tag documents. *)
Inductive Value :=
  | VNull
  | VBool (b : bool)
  | VNum (n : Z)
  | VStr (s : string).

#[global] Instance Value_eq_dec : EqDecision Value.
Proof. solve_decision. Defined.

(** A document (and any plain object handed to the store): field name to
    value; an absent key is JavaScript's [undefined]. *)
Abbreviation Doc := (gmap string Value).

(** An object literal [{k1: e1, ..., kn: en}] with distinct keys, whose
    expressions may be [undefined]; such entries are not part of the object
    the store sees. *)
Fixpoint obj (kvs : list (string * option Value)) : Doc :=
  match kvs with
  | [] => ∅
  | (k, Some v) :: rest => <[k := v]> (obj rest)
  | (_, None) :: rest => obj rest
  end.

(** ** The document store (external collaborator)

    [find], [updateOne] and [create] of a Mongoose model, restricted to the
    query language the service uses: equality on a field, [$lt] on a field,
    [$or] of sub-queries, and the implicit conjunction of the entries of a
    filter object.  The store acknowledges every write.  The schema of the
    two models ([models/datadb/Tags]) is not part of [src/tag.ts]: casting,
    defaults and validation are left out, and a stored document holds
    exactly the fields it was given. *)

Inductive Cond :=
  | CEq (v : Value)        (* { field: v } *)
  | CLt (n : Z).           (* { field: { $lt: n } } *)

#[local] Set Warnings "-register-all".
Inductive Query :=
  | QField (k : string) (c : Cond)
  | QOr (qs : list Query)
  | QAnd (qs : list Query).

(** Equality with [null] also matches a missing field; [$lt] only matches
    a stored number. *)
Definition cond_holds (c : Cond) (field : option Value) : bool :=
  match c, field with
  | CEq VNull, None => true
  | CEq v, Some x => bool_decide (x = v)
  | CEq _, None => false
  | CLt n, Some (VNum m) => bool_decide (m < n)
  | CLt _, _ => false
  end.

Fixpoint matches (q : Query) (d : Doc) : bool :=
  match q with
  | QField k c => cond_holds c (d !! k)
  | QOr qs => existsb (fun q' => matches q' d) qs
  | QAnd qs => forallb (fun q' => matches q' d) qs
  end.

(** An inclusive projection (a space separated list of field names in the
    source); [_id] is always part of the result. *)
Definition project (fields : list string) (d : Doc) : Doc :=
  filter (fun kv => kv.1 = "_id" ∨ kv.1 ∈ fields) d.

Definition find (q : Query) (projection : option (list string))
    (coll : list Doc) : list Doc :=
  let hits := List.filter (matches q) coll in
  match projection with
  | Some fields => project fields <$> hits
  | None => hits
  end.

Record UpdateResult := {
  acknowledged : bool;
  matchedCount : nat;
  modifiedCount : nat;
}.

(** [updateOne] sets the given fields on the first document that matches;
    a matched document whose fields already hold these values is not
    counted as modified. *)
Fixpoint updateOne (q : Query) (fieldSet : Doc) (coll : list Doc)
    : UpdateResult * list Doc :=
  match coll with
  | [] => ({| acknowledged := true; matchedCount := 0; modifiedCount := 0 |}, [])
  | d :: rest =>
      if matches q d then
        let d' := fieldSet ∪ d in
        ({| acknowledged := true; matchedCount := 1;
            modifiedCount := if decide (d' = d) then 0 else 1 |}%nat,
         d' :: rest)
      else
        let '(r, rest') := updateOne q fieldSet rest in (r, d :: rest')
  end.


(** [{ field: { $in: values } }]: the field equals one of the values. *)
Definition QIn (k : string) (values : list Value) : Query :=
  QOr ((fun v => QField k (CEq v)) <$> values).

(** [findOne]: the first document that matches, or [null]. *)
Definition findOne (q : Query) (projection : option (list string))
    (coll : list Doc) : option Doc :=
  let hit := List.find (matches q) coll in
  match projection with
  | Some fields => project fields <$> hit
  | None => hit
  end.

Record DeleteResult := {
  deletedCount : nat;
}.

(** [deleteOne] removes the first document that matches. *)
Fixpoint deleteOne (q : Query) (coll : list Doc) : DeleteResult * list Doc :=
  match coll with
  | [] => ({| deletedCount := 0 |}, [])
  | d :: rest =>
      if matches q d then ({| deletedCount := 1 |}, rest)
      else let '(r, rest') := deleteOne q rest in (r, d :: rest')
  end.

(** [deleteMany] removes every document that matches. *)
Definition deleteMany (q : Query) (coll : list Doc)
    : DeleteResult * list Doc :=
  ({| deletedCount := length (List.filter (matches q) coll) |},
   List.filter (fun d => negb (matches q d)) coll).

(** [if (deleted && deleted.deletedCount)]: the result object is truthy, a
    number is truthy unless it is zero. *)
Definition result_truthy (_ : DeleteResult) : bool := true.

Definition number_truthy (n : nat) : bool := negb (Nat.eqb n 0).

(** ** The world the service runs in *)

Record World := {
  tagModel : list Doc;          (* the owned-tag collection *)
  tagSharedModel : list Doc;    (* the shared-tag collection *)
  clockReads : nat;             (* how often [Date.now()] has been read *)
}.

Definition setTags (c : list Doc) (w : World) : World :=
  {| tagModel := c; tagSharedModel := tagSharedModel w;
     clockReads := clockReads w |}.

Definition setTagsShared (c : list Doc) (w : World) : World :=
  {| tagModel := tagModel w; tagSharedModel := c;
     clockReads := clockReads w |}.

(** Every [async] method is a computation over the world. *)
Definition M (A : Type) : Type := World → A * World.

Definition ret {A} (a : A) : M A := fun w => (a, w).

Definition bind {A B} (m : M A) (k : A → M B) : M B :=
  fun w => let '(a, w') := m w in k a w'.

Notation "'await' x ':=' m ';;' k" := (bind m (fun x => k))
  (at level 10, x name, m at level 99, k at level 200,
   format "'[v' 'await'  x  :=  m  ;; '/' k ']'").

(** [await tagModel.op(...)] and [await tagSharedModel.op(...)]. *)
Definition onTags {A} (op : list Doc → A * list Doc) : M A :=
  fun w => let '(a, c) := op (tagModel w) in (a, setTags c w).

Definition onTagsShared {A} (op : list Doc → A * list Doc) : M A :=
  fun w => let '(a, c) := op (tagSharedModel w) in (a, setTagsShared c w).

Definition readTags {A} (op : list Doc → A) : M A :=
  fun w => (op (tagModel w), w).

Definition readTagsShared {A} (op : list Doc → A) : M A :=
  fun w => (op (tagSharedModel w), w).

(** Arrays are objects: [if (tags)] takes the first branch for every
    array, the empty one included. *)
Definition array_truthy {A} (_ : list A) : bool := true.

(** The variable [success] of [addTagsFromJson]: declared [boolean],
    initialised with [true], then assigned whatever [create] returned. *)
Inductive Success :=
  | SBool (b : bool)
  | SDoc (doc : option Doc).

Definition truthy (s : Success) : bool :=
  match s with
  | SBool b => b
  | SDoc (Some _) => true
  | SDoc None => false
  end.

(** [success &&= doc] *)
Definition and_assign (success : Success) (doc : option Doc) : Success :=
  if truthy success then SDoc doc else success.

(** Membership of a literal in a list of literals. *)
Ltac in_list :=
  by repeat first [apply list_elem_of_here | apply list_elem_of_further].

Ltac not_in_list :=
  let Hin := fresh "Hin" in
  intros Hin;
  repeat (apply elem_of_cons in Hin as [?|Hin]; [done|]);
  by apply elem_of_nil in Hin.

(** ** TagService *)

Section TagService.

(** The server clock: the value of the [k]-th call of [Date.now()]. *)
Variable Date_now : nat → Z.

(** The storage layer's verdict on an insert into a collection: whether
    [create] hands back a document. *)
Variable create_accepts : list Doc → Doc → bool.

(** [TagService.apiFieldsSync] is not declared in [src/tag.ts] (a static
    member inherited from [CommonService]); it is a projection string like
    [apiFields]. *)
Variable apiFieldsSync : string.

(** [TagService.apiFieldsSyncShared], likewise declared outside
    [src/tag.ts]. *)
Variable apiFieldsSyncShared : string.

Definition dateNow : M Z :=
  fun w => (Date_now (clockReads w),
            {| tagModel := tagModel w; tagSharedModel := tagSharedModel w;
               clockReads := S (clockReads w) |}).

(** A parameter with a default value: [updateTs: number = Date.now()]. *)
Definition orDefault {A} (arg : option A) (dflt : M A) : M A :=
  match arg with
  | Some a => ret a
  | None => dflt
  end.

(** [Model.create(fields)]: the stored document, or nothing.  What the
    schema adds to a document on insert (an [_id] when the fields carry
    none, defaults) is not modelled: the properties of inserted documents
    below speak about the values the caller handed in. *)
Definition create (fields : Doc) (coll : list Doc) : option Doc * list Doc :=
  if create_accepts coll fields then (Some fields, coll ++ [fields])
  else (None, coll).

Definition apiFields : string :=
  "_id dId lId userId tag deleted encKey encConfig createTs updateTs deleteTs schemaVersion".

(** The object literal of lines 62-75. *)
Definition addTagsFromJson_fields (tag : Doc) (now : Z) : Doc :=
  obj [("_id", tag !! "_id");
       ("dId", tag !! "dId");
       ("lId", tag !! "lId");
       ("userId", tag !! "userId");
       ("deleted", tag !! "deleted");
       ("tag", tag !! "tag");
       ("encKey", tag !! "encKey");
       ("encConfig", tag !! "encConfig");
       ("createTs", tag !! "createTs");
       ("updateTs", Some (VNum now));
       ("deleteTs", tag !! "deleteTs");
       ("schemaVersion", tag !! "schemaVersion")].

(** The body of [for (const tag of json)], entered with the current value
    of [success]. *)
Fixpoint addTagsFromJson_loop (success : Success) (json : list Doc)
    : M Success :=
  match json with
  | [] => ret success
  | tag :: rest =>
      await now := dateNow ;;
      await doc := onTags (create (addTagsFromJson_fields tag now)) ;;
      let success := and_assign success doc in
      if negb (truthy success) then ret success
      else addTagsFromJson_loop success rest
  end.

Definition addTagsFromJson (json : list Doc) : M Success :=
  addTagsFromJson_loop (SBool true) json.

Definition getAllCurrentTags_filter (userId : string) : Query :=
  QAnd [QField "userId" (CEq (VStr userId));
        QField "deleted" (CEq (VBool false))].

Definition getAllCurrentTags (userId : string) : M (list Doc + bool) :=
  await tags :=
    readTags (find (getAllCurrentTags_filter userId) (Some (String.words apiFields))) ;;
  if array_truthy tags then ret (inl tags) else ret (inr false).

Definition getAllTagsForBackup_filter (userId : string) : Query :=
  QAnd [QField "userId" (CEq (VStr userId));
        QField "deleted" (CEq (VBool false))].

Definition getAllTagsForBackup (userId : string) : M (list Doc + bool) :=
  await tags := readTags (find (getAllTagsForBackup_filter userId) None) ;;
  if array_truthy tags then ret (inl tags) else ret (inr false).

Definition getAllTagsSync_filter (userId : string) : Query :=
  QAnd [QField "userId" (CEq (VStr userId))].

Definition getAllTagsSync (userId : string) : M (list Doc + bool) :=
  await tags :=
    readTags (find (getAllTagsSync_filter userId) (Some (String.words apiFieldsSync))) ;;
  if array_truthy tags then ret (inl tags) else ret (inr false).

(** The filter object of lines 347-352. *)
Definition updateTag_filter (userId tagId : string) (updateTs : Z) : Query :=
  QAnd [QField "_id" (CEq (VStr tagId));
        QField "userId" (CEq (VStr userId));
        QField "deleted" (CEq (VBool false));
        QOr [QField "updateTs" (CLt updateTs);
             QField "updateTs" (CEq VNull)]].

Definition updateTag (userId tagId : string) (updates : Doc)
    (updateTs : option Z) : M bool :=
  await updateTs := orDefault updateTs dateNow ;;
  await result :=
    onTags (updateOne (updateTag_filter userId tagId updateTs)
                      (<["updateTs" := VNum updateTs]> updates)) ;;
  if acknowledged result && bool_decide (0 < modifiedCount result)%nat
  then ret true else ret false.

(** The filter object of lines 378-383. *)
Definition updateTagShared_filter (userId tagId : string) (updateTs : Z)
    : Query :=
  QAnd [QField "_id" (CEq (VStr tagId));
        QField "userId" (CEq (VStr userId));
        QField "deleted" (CEq (VBool false));
        QOr [QField "updateTs" (CLt updateTs);
             QField "updateTs" (CEq VNull)]].

Definition updateTagShared (userId tagId : string) (updates : Doc)
    (updateTs : option Z) : M bool :=
  await updateTs := orDefault updateTs dateNow ;;
  await result :=
    onTagsShared (updateOne (updateTagShared_filter userId tagId updateTs)
                            (<["updateTs" := VNum updateTs]> updates)) ;;
  if acknowledged result && bool_decide (0 < modifiedCount result)%nat
  then ret true else ret false.

Definition updateTagDetails (userId tagId tag encKey encConfig : string)
    (updateTs schemaVersion : Z) : M bool :=
  await result :=
    updateTag userId tagId
      (obj [("tag", Some (VStr tag));
            ("encKey", Some (VStr encKey));
            ("encConfig", Some (VStr encConfig));
            ("schemaVersion", Some (VNum schemaVersion))])
      (Some updateTs) ;;
  if result then ret true else ret false.

Definition updateTagDetailsShared (userId tagId tag encKey encConfig : string)
    (updateTs schemaVersion : Z) : M bool :=
  await result :=
    updateTagShared userId tagId
      (obj [("tag", Some (VStr tag));
            ("encKey", Some (VStr encKey));
            ("encConfig", Some (VStr encConfig));
            ("schemaVersion", Some (VNum schemaVersion))])
      (Some updateTs) ;;
  if result then ret true else ret false.

Definition deleteSoftTag_filter (userId tagId : string) : Query :=
  QAnd [QField "_id" (CEq (VStr tagId));
        QField "userId" (CEq (VStr userId));
        QField "deleted" (CEq (VBool false))].

(** The field set of lines 488-494. *)
Definition deleteSoftTag_fields (deleteTs : string) : Doc :=
  obj [("tag", Some (VStr ""));
       ("deleted", Some (VBool true));
       ("encKey", Some (VStr ""));
       ("encConfig", Some (VStr ""));
       ("deleteTs", Some (VStr deleteTs))].

Definition deleteSoftTag (userId tagId deleteTs : string) : M bool :=
  await result :=
    onTags (updateOne (deleteSoftTag_filter userId tagId)
                      (deleteSoftTag_fields deleteTs)) ;;
  if acknowledged result && bool_decide (0 < modifiedCount result)%nat
  then ret true else ret false.

(** The object literal of lines 34-43 and of lines 110-119. *)
Definition addTag_fields (dId lId userId tag encKey encConfig : string)
    (createTs schemaVersion : Z) : Doc :=
  obj [("dId", Some (VStr dId));
       ("lId", Some (VStr lId));
       ("userId", Some (VStr userId));
       ("tag", Some (VStr tag));
       ("encKey", Some (VStr encKey));
       ("encConfig", Some (VStr encConfig));
       ("createTs", Some (VNum createTs));
       ("schemaVersion", Some (VNum schemaVersion))].

Definition addTag (dId lId userId tag encKey encConfig : string)
    (createTs schemaVersion : Z) : M (Doc + bool) :=
  await doc :=
    onTags (create (addTag_fields dId lId userId tag encKey encConfig
                      createTs schemaVersion)) ;;
  match doc with
  | Some doc => ret (inl doc)
  | None => ret (inr false)
  end.

Definition addTagShared (dId lId userId tag encKey encConfig : string)
    (createTs schemaVersion : Z) : M (Doc + bool) :=
  await doc :=
    onTagsShared (create (addTag_fields dId lId userId tag encKey encConfig
                            createTs schemaVersion)) ;;
  match doc with
  | Some doc => ret (inl doc)
  | None => ret (inr false)
  end.

Definition getAllTagsSharedByOthers_filter (sharedTagIds : list string)
    : Query :=
  QAnd [QIn "_id" (VStr <$> sharedTagIds);
        QField "deleted" (CEq (VBool false))].

Definition getAllTagsSharedByOthers (sharedTagIds : list string)
    : M (list Doc + bool) :=
  await tags :=
    readTagsShared (find (getAllTagsSharedByOthers_filter sharedTagIds)
                         (Some (String.words apiFields))) ;;
  if array_truthy tags then ret (inl tags) else ret (inr false).

Definition getTagsSharedByUser_filter (userId : string)
    (sharedTagIds : list string) : Query :=
  QAnd [QIn "_id" (VStr <$> sharedTagIds);
        QField "userId" (CEq (VStr userId));
        QField "archived" (CEq (VBool false));
        QField "recycled" (CEq (VBool false));
        QField "deleted" (CEq (VBool false))].

Definition getTagsSharedByUser (userId : string) (sharedTagIds : list string)
    : M (list Doc + bool) :=
  await tags :=
    readTagsShared (find (getTagsSharedByUser_filter userId sharedTagIds)
                         (Some (String.words apiFields))) ;;
  if array_truthy tags then ret (inl tags) else ret (inr false).

Definition getAllTagsSharedSync_filter (tagIds : list string) : Query :=
  QAnd [QIn "_id" (VStr <$> tagIds)].

Definition getAllTagsSharedSync (tagIds : list string)
    : M (list Doc + bool) :=
  await tags :=
    readTagsShared (find (getAllTagsSharedSync_filter tagIds)
                         (Some (String.words apiFieldsSyncShared))) ;;
  if array_truthy tags then ret (inl tags) else ret (inr false).

Definition getTag_filter (userId tagId : string) : Query :=
  QAnd [QField "_id" (CEq (VStr tagId));
        QField "userId" (CEq (VStr userId));
        QField "deleted" (CEq (VBool false))].

Definition getTag (userId tagId : string) : M (Doc + bool) :=
  await tag :=
    readTags (findOne (getTag_filter userId tagId)
                      (Some (String.words apiFields))) ;;
  match tag with
  | Some tag => ret (inl tag)
  | None => ret (inr false)
  end.

Definition getTagShared_filter (userId tagId : string) : Query :=
  QAnd [QField "_id" (CEq (VStr tagId));
        QField "userId" (CEq (VStr userId));
        QField "deleted" (CEq (VBool false))].

Definition getTagShared (userId tagId : string) : M (Doc + bool) :=
  await tag :=
    readTagsShared (findOne (getTagShared_filter userId tagId)
                            (Some (String.words apiFields))) ;;
  match tag with
  | Some tag => ret (inl tag)
  | None => ret (inr false)
  end.

Definition deleteHardTag_filter (userId tagId : string) : Query :=
  QAnd [QField "_id" (CEq (VStr tagId));
        QField "userId" (CEq (VStr userId))].

Definition deleteHardTag (userId tagId : string) : M bool :=
  await deleted := onTags (deleteOne (deleteHardTag_filter userId tagId)) ;;
  if result_truthy deleted && number_truthy (deletedCount deleted)
  then ret true else ret false.

Definition deleteHardTagShared_filter (userId tagId : string) : Query :=
  QAnd [QField "_id" (CEq (VStr tagId));
        QField "userId" (CEq (VStr userId))].

Definition deleteHardTagShared (userId tagId : string) : M bool :=
  await deleted :=
    onTagsShared (deleteOne (deleteHardTagShared_filter userId tagId)) ;;
  if result_truthy deleted && number_truthy (deletedCount deleted)
  then ret true else ret false.

Definition deleteHardTags_filter (userId : string) : Query :=
  QAnd [QField "userId" (CEq (VStr userId))].

Definition deleteHardTags (userId : string) : M bool :=
  await deleted := onTags (deleteMany (deleteHardTags_filter userId)) ;;
  if result_truthy deleted && number_truthy (deletedCount deleted)
  then ret true else ret false.

(** ** Vocabulary of the properties *)

(** [_id] is the primary key of a collection. *)
Definition unique_ids (coll : list Doc) : Prop :=
  NoDup ((.!! "_id") <$> coll).

(** An active record with this identifier, owned by this user. *)
Definition owned_active (userId tagId : string) (d : Doc) : Prop :=
  d !! "_id" = Some (VStr tagId) ∧
  d !! "userId" = Some (VStr userId) ∧
  d !! "deleted" = Some (VBool false).

(** The stored [updateTs] is absent, [null], or strictly below the
    candidate. *)
Definition gate_open (candidateTs : Z) (d : Doc) : Prop :=
  d !! "updateTs" = None ∨
  d !! "updateTs" = Some VNull ∨
  ∃ stored, d !! "updateTs" = Some (VNum stored) ∧ stored < candidateTs.

Definition payload_fields : list string :=
  ["tag"; "encKey"; "encConfig"; "schemaVersion"].

(** A field-change set over the payload fields only. *)
Definition payload_only (updates : Doc) : Prop :=
  dom updates ⊆ list_to_set payload_fields.

(** The accepted write of [updateTag]. *)
Definition updated (updates : Doc) (updateTs : Z) (d : Doc) : Doc :=
  <["updateTs" := VNum updateTs]> updates ∪ d.

(** The accepted write of [deleteSoftTag]. *)
Definition tombstone (deleteTs : string) (d : Doc) : Doc :=
  deleteSoftTag_fields deleteTs ∪ d.

(** What [updateOne] reports when nothing matched, and when it rewrote
    [d]. *)
Definition no_match : UpdateResult :=
  {| acknowledged := true; matchedCount := 0; modifiedCount := 0 |}.

Definition one_match (fieldSet d : Doc) : UpdateResult :=
  {| acknowledged := true; matchedCount := 1;
     modifiedCount := if decide (fieldSet ∪ d = d) then 0%nat else 1%nat |}.

(** The three writers of the owned collection that go through a filter on
    [deleted: false], as calls a client can issue in any sequence. *)
Inductive Call :=
  | CallUpdateTag (userId tagId : string) (updates : Doc)
      (updateTs : option Z)
  | CallUpdateTagDetails (userId tagId tag encKey encConfig : string)
      (updateTs schemaVersion : Z)
  | CallDeleteSoftTag (userId tagId deleteTs : string).

Definition perform (c : Call) : M bool :=
  match c with
  | CallUpdateTag userId tagId updates updateTs =>
      updateTag userId tagId updates updateTs
  | CallUpdateTagDetails userId tagId tag encKey encConfig updateTs
      schemaVersion =>
      updateTagDetails userId tagId tag encKey encConfig updateTs
        schemaVersion
  | CallDeleteSoftTag userId tagId deleteTs =>
      deleteSoftTag userId tagId deleteTs
  end.

Fixpoint run (calls : list Call) (w : World) : World :=
  match calls with
  | [] => w
  | c :: rest => run rest (perform c w).2
  end.

(** Two racing [updateTag] calls on the record at position [i], taken in
    both arrival orders: the final worlds, and what each call returned. *)
Record Race := {
  first_low : World;   (* T1's call, then T2's *)
  first_high : World;  (* T2's call, then T1's *)
  low_result_when_first : bool;
  low_result_when_second : bool;
  low_effect_when_second : World * World;  (* before and after T1's call *)
}.

Definition race (userId tagId : string) (u1 u2 : Doc) (T1 T2 : Z)
    (w : World) : Race :=
  let a := updateTag userId tagId u1 (Some T1) w in
  let ab := updateTag userId tagId u2 (Some T2) a.2 in
  let b := updateTag userId tagId u2 (Some T2) w in
  let ba := updateTag userId tagId u1 (Some T1) b.2 in
  {| first_low := ab.2; first_high := ba.2;
     low_result_when_first := a.1; low_result_when_second := ba.1;
     low_effect_when_second := (b.2, ba.2) |}.

(** The record at position [i] carries [T2] and the values of [u2]. *)
Definition carries (u2 : Doc) (T2 : Z) (i : nat) (w : World) : Prop :=
  ∃ d : Doc, tagModel w !! i = Some d ∧
    d !! "updateTs" = Some (VNum T2) ∧
    ∀ k v, u2 !! k = Some v → d !! k = Some v.

(** The world with the two collections exchanged, and a computation run
    on the exchanged world. *)
Definition swapModels (w : World) : World :=
  {| tagModel := tagSharedModel w; tagSharedModel := tagModel w;
     clockReads := clockReads w |}.

Definition onOtherCollection {A} (m : M A) : M A :=
  fun w => let '(a, w') := m (swapModels w) in (a, swapModels w').

(** The timestamp a call of [updateTag] works with. *)
Definition candidate (updateTs : option Z) (w : World) : Z :=
  match updateTs with
  | Some ts => ts
  | None => Date_now (clockReads w)
  end.

(** The record a call addresses. *)
Definition target (c : Call) : string :=
  match c with
  | CallUpdateTag _ tagId _ _ => tagId
  | CallUpdateTagDetails _ tagId _ _ _ _ _ => tagId
  | CallDeleteSoftTag _ tagId _ => tagId
  end.

(** The documents [addTagsFromJson] hands to [create] for the records of a
    batch: record [k] carries the [k]-th clock reading from [reads] on. *)
Definition stamped (reads : nat) (json : list Doc) : list Doc :=
  imap (fun k tag => addTagsFromJson_fields tag (Date_now (reads + k))) json.

(** The stored [updateTs] of [d'] is not older than that of [d]. *)
Definition not_older (d d' : Doc) : Prop :=
  ∀ m, d !! "updateTs" = Some (VNum m) →
    ∃ m', d' !! "updateTs" = Some (VNum m') ∧ m ≤ m'.

(** The field-change set of [updateTagDetails]. *)
Definition details (tag encKey encConfig : string) (schemaVersion : Z)
    : Doc :=
  obj [("tag", Some (VStr tag));
       ("encKey", Some (VStr encKey));
       ("encConfig", Some (VStr encConfig));
       ("schemaVersion", Some (VNum schemaVersion))].

(** *** Statements that are compared with the code below *)

(** A call whose field changes equal the stored values is rejected although
    its filter matched. *)
Definition value_equal_write_rejected (userId tagId : string)
    (updates : Doc) (candidateTs : Z) (w : World) : Prop :=
  ∀ d : Doc, d ∈ tagModel w →
    matches (updateTag_filter userId tagId candidateTs) d = true →
    updates ⊆ d →
    (updateTag userId tagId updates (Some candidateTs) w).1 = false.

(** Two calls with [T1 < T2] on an active record converge on [T2] and its
    values in either order, and the [T1] call, arriving second, is rejected
    without effect: no condition on the stored [updateTs]. *)
Definition race_converges_unconditionally (userId tagId : string)
    (u1 u2 : Doc) (T1 T2 : Z) (w : World) (i : nat) : Prop :=
  let r := race userId tagId u1 u2 T1 T2 w in
  carries u2 T2 i (first_low r) ∧ carries u2 T2 i (first_high r)
  ∧ low_result_when_second r = false
  ∧ (low_effect_when_second r).2 = (low_effect_when_second r).1.

(** *** Sample data *)

Definition sample_clock : nat → Z := fun k => 1000 + Z.of_nat k.

Definition sample_tag : Doc :=
  obj [("_id", Some (VStr "t1")); ("dId", Some (VStr "d1"));
       ("lId", Some (VStr "l1")); ("userId", Some (VStr "u1"));
       ("tag", Some (VStr "work")); ("deleted", Some (VBool false));
       ("encKey", Some (VStr "k")); ("encConfig", Some (VStr "c"));
       ("createTs", Some (VNum 100)); ("updateTs", Some (VNum 100));
       ("schemaVersion", Some (VNum 1))].

Definition sample_tombstone : Doc :=
  obj [("_id", Some (VStr "t2")); ("userId", Some (VStr "u1"));
       ("tag", Some (VStr "")); ("deleted", Some (VBool true));
       ("encKey", Some (VStr "")); ("encConfig", Some (VStr ""));
       ("createTs", Some (VNum 50)); ("updateTs", Some (VNum 60));
       ("deleteTs", Some (VStr "70")); ("schemaVersion", Some (VNum 1))].

Definition sample_world : World :=
  {| tagModel := [sample_tag; sample_tombstone]; tagSharedModel := [];
     clockReads := 0 |}.

Definition rename (tag : string) : Doc := obj [("tag", Some (VStr tag))].

Definition sample_apiFieldsSync : string :=
  "_id userId tag deleted encKey encConfig updateTs deleteTs".

(** A store that refuses documents without a [userId]. *)
Definition sample_accepts (coll : list Doc) (d : Doc) : bool :=
  bool_decide (is_Some (d !! "userId")).

Definition sample_record (id : string) (userId : option string) : Doc :=
  obj [("_id", Some (VStr id)); ("userId", VStr <$> userId);
       ("tag", Some (VStr "imported")); ("deleted", Some (VBool false));
       ("createTs", Some (VNum 1)); ("updateTs", Some (VNum 2))].

Definition empty_world : World :=
  {| tagModel := []; tagSharedModel := []; clockReads := 0 |}.

(** *** Basic facts about the store *)

Lemma setTags_same w : setTags (tagModel w) w = w.
Proof. by destruct w. Qed.

Lemma cond_eq_iff v o :
  v ≠ VNull → cond_holds (CEq v) o = true ↔ o = Some v.
Proof.
  intros Hv. destruct o as [x|]; simpl.
  - destruct v; try done; rewrite bool_decide_eq_true; naive_solver.
  - destruct v; naive_solver.
Qed.

Lemma gate_iff ts (d : Doc) :
  cond_holds (CLt ts) (d !! "updateTs") || cond_holds (CEq VNull) (d !! "updateTs") = true
  ↔ gate_open ts d.
Proof.
  unfold gate_open. destruct (d !! "updateTs") as [[| |m|]|]; simpl;
    rewrite ?orb_false_r, ?bool_decide_eq_true.
  - split; [by right; left|done].
  - split; [done|]. by intros [|[|(? & ? & ?)]].
  - split; [by right; right; exists m|].
    by intros [|[|(? & [= <-] & ?)]].
  - split; [done|]. by intros [|[|(? & ? & ?)]].
  - split; [by left|done].
Qed.

Lemma updateTag_filter_iff userId tagId ts (d : Doc) :
  matches (updateTag_filter userId tagId ts) d = true
  ↔ owned_active userId tagId d ∧ gate_open ts d.
Proof.
  unfold owned_active, updateTag_filter. cbn [matches forallb existsb].
  rewrite !andb_true_iff, orb_false_r, gate_iff.
  rewrite !cond_eq_iff by done. tauto.
Qed.

Lemma deleteSoftTag_filter_iff userId tagId (d : Doc) :
  matches (deleteSoftTag_filter userId tagId) d = true
  ↔ owned_active userId tagId d.
Proof.
  unfold owned_active, deleteSoftTag_filter. cbn [matches forallb].
  rewrite !andb_true_iff.
  rewrite !cond_eq_iff by done. tauto.
Qed.

Lemma unique_ids_lookup (coll : list Doc) i j (d e : Doc) :
  unique_ids coll → coll !! i = Some d → coll !! j = Some e →
  d !! "_id" = e !! "_id" → i = j.
Proof.
  intros Hnd Hi Hj Heq.
  apply (NoDup_lookup _ i j (d !! "_id") Hnd); rewrite list_lookup_fmap.
  - by rewrite Hi.
  - by rewrite Hj, Heq.
Qed.

Lemma updateOne_miss q fieldSet (coll : list Doc) :
  (∀ e, e ∈ coll → matches q e = false) →
  updateOne q fieldSet coll = (no_match, coll).
Proof.
  induction coll as [|d rest IH]; intros Hno; [done|]. simpl.
  rewrite (Hno d) by left.
  rewrite IH; [done|]. intros e He. apply Hno. by right.
Qed.

Lemma updateOne_hit q fieldSet (coll : list Doc) i (d : Doc) :
  coll !! i = Some d → matches q d = true →
  (∀ j e, (j < i)%nat → coll !! j = Some e → matches q e = false) →
  updateOne q fieldSet coll
  = (one_match fieldSet d, <[i := fieldSet ∪ d]> coll).
Proof.
  revert i. induction coll as [|x rest IH]; intros i Hi Hd Hbefore; [done|].
  destruct i as [|i]; simpl in *.
  - injection Hi as ->. by rewrite Hd.
  - rewrite (Hbefore 0%nat x) by (done || lia).
    rewrite (IH i Hi Hd); [done|].
    intros j e Hj He. apply (Hbefore (S j) e); [lia|done].
Qed.

(** [updateOne] either misses every document or rewrites the first one
    that matches. *)
Lemma updateOne_cases q fieldSet (coll : list Doc) :
  ((∀ e, e ∈ coll → matches q e = false) ∧
   updateOne q fieldSet coll = (no_match, coll))
  ∨ (∃ i d, coll !! i = Some d ∧ matches q d = true ∧
       (∀ j e, (j < i)%nat → coll !! j = Some e → matches q e = false) ∧
       updateOne q fieldSet coll
       = (one_match fieldSet d, <[i := fieldSet ∪ d]> coll)).
Proof.
  destruct (decide (Forall (fun e => matches q e = false) coll)) as [Hall|Hex].
  - left. rewrite Forall_forall in Hall. split; [done|].
    by apply updateOne_miss.
  - right. apply not_Forall_Exists in Hex; [|apply _].
    induction coll as [|x rest IH]; [by inversion Hex|].
    destruct (matches q x) eqn:Hx.
    + exists 0%nat, x. split_and!; [done|done|intros; lia|].
      by apply (updateOne_hit q fieldSet (x :: rest) 0 x); [| |intros; lia].
    + destruct IH as (i & d & Hi & Hd & Hbefore & _).
      { inversion Hex; subst; [congruence|done]. }
      assert (∀ j e, (j < S i)%nat → (x :: rest) !! j = Some e →
                     matches q e = false) as Hb.
      { intros [|j] e Hj He; simpl in He; [congruence|].
        apply (Hbefore j e); [lia|done]. }
      exists (S i), d. split_and!; [done|done|done|].
      by apply updateOne_hit.
Qed.

(** With [_id] a key, a filter that pins [_id] can only match the record
    that carries it. *)
Lemma updateOne_by_id q fieldSet (coll : list Doc) i (d : Doc) id :
  unique_ids coll → coll !! i = Some d → d !! "_id" = Some id →
  (∀ e, matches q e = true → e !! "_id" = Some id) →
  updateOne q fieldSet coll
  = if matches q d then (one_match fieldSet d, <[i := fieldSet ∪ d]> coll)
    else (no_match, coll).
Proof.
  intros Hu Hi Hid Hq.
  assert (∀ j e, coll !! j = Some e → j ≠ i → matches q e = false) as Hother.
  { intros j e Hj Hne. destruct (matches q e) eqn:He; [|done].
    destruct Hne. apply (unique_ids_lookup coll j i e d); try done.
    by rewrite (Hq e He). }
  destruct (matches q d) eqn:Hd.
  - apply updateOne_hit; [done|done|].
    intros j e Hj He. apply (Hother j e He). lia.
  - apply updateOne_miss. intros e [j Hj]%list_elem_of_lookup.
    destruct (decide (j = i)) as [->|Hne]; [congruence|by eapply Hother].
Qed.

(** *** The timestamp-gated writer *)

Lemma updateTag_unfold userId tagId updates ts w :
  updateTag userId tagId updates (Some ts) w
  = (let r := updateOne (updateTag_filter userId tagId ts)
                        (<["updateTs" := VNum ts]> updates) (tagModel w) in
     (acknowledged r.1 && bool_decide (0 < modifiedCount r.1)%nat,
      setTags r.2 w)).
Proof.
  unfold updateTag, bind, orDefault, ret, onTags.
  destruct (updateOne _ _ _) as [r c]. simpl.
  by destruct (acknowledged r && _).
Qed.

Lemma updated_updateTs updates ts (d : Doc) :
  updated updates ts d !! "updateTs" = Some (VNum ts).
Proof.
  unfold updated. apply lookup_union_Some_l. apply lookup_insert_eq.
Qed.

(** A write that passes the gate always changes the document: the stored
    [updateTs] is not the candidate. *)
Lemma updated_ne updates ts (d : Doc) :
  gate_open ts d → updated updates ts d ≠ d.
Proof.
  intros Hgate Heq.
  pose proof (updated_updateTs updates ts d) as Hts. rewrite Heq in Hts.
  destruct Hgate as [Hn|[Hn|(m & Hm & Hlt)]]; rewrite Hts in *;
    simplify_eq; lia.
Qed.

Lemma updateTag_hit userId tagId updates ts w i (d : Doc) :
  unique_ids (tagModel w) → tagModel w !! i = Some d →
  owned_active userId tagId d → gate_open ts d →
  updateTag userId tagId updates (Some ts) w
  = (true, setTags (<[i := updated updates ts d]> (tagModel w)) w).
Proof.
  intros Hu Hi Hown Hgate. rewrite updateTag_unfold.
  rewrite (updateOne_by_id _ _ _ i d (VStr tagId) Hu Hi).
  - assert (matches (updateTag_filter userId tagId ts) d = true) as ->
      by by apply updateTag_filter_iff.
    cbn -[updateTag_filter]. fold (updated updates ts d).
    by rewrite decide_False by by apply updated_ne.
  - apply Hown.
  - intros e He. apply updateTag_filter_iff in He. apply He.
Qed.

Lemma updateTag_reject userId tagId updates ts w i (d : Doc) :
  unique_ids (tagModel w) → tagModel w !! i = Some d →
  d !! "_id" = Some (VStr tagId) →
  ¬ (owned_active userId tagId d ∧ gate_open ts d) →
  updateTag userId tagId updates (Some ts) w = (false, w).
Proof.
  intros Hu Hi Hid Hno. rewrite updateTag_unfold.
  rewrite (updateOne_by_id _ _ _ i d (VStr tagId) Hu Hi Hid).
  - destruct (matches _ d) eqn:Hd.
    + by apply updateTag_filter_iff in Hd.
    + cbn. by rewrite setTags_same.
  - intros e He. apply updateTag_filter_iff in He. apply He.
Qed.

(** C1. For a stored tag that is active and owned by the caller,
    [updateTag] with a candidate timestamp less than or equal to the stored
    [updateTs] writes nothing and returns [false]; with a candidate
    strictly greater than the stored [updateTs], or with the stored
    [updateTs] absent or [null], it rewrites the record (the new document
    differs from the old one) and returns [true]. *)
Theorem updateTag_timestamp_gate (userId tagId : string) (updates : Doc)
    (candidateTs : Z) (w : World) (i : nat) (d : Doc) :
  unique_ids (tagModel w) → tagModel w !! i = Some d →
  owned_active userId tagId d →
  (∀ stored : Z,
     d !! "updateTs" = Some (VNum stored) → (candidateTs ≤ stored)%Z →
     updateTag userId tagId updates (Some candidateTs) w = (false, w))
  ∧ (gate_open candidateTs d →
     updated updates candidateTs d ≠ d ∧
     updateTag userId tagId updates (Some candidateTs) w
     = (true,
        setTags (<[i := updated updates candidateTs d]> (tagModel w)) w)).
Proof.
  intros Hu Hi Hown. split.
  - intros stored Hstored Hle.
    apply (updateTag_reject _ _ _ _ _ i d); [done|done|apply Hown|].
    intros [_ [Hn|[Hn|(m & Hm & Hlt)]]]; rewrite Hstored in *;
      simplify_eq; lia.
  - intros Hgate. split; [by apply updated_ne|by apply updateTag_hit].
Qed.

(** C2 (as amended). [updateTag] returns [true] exactly when the store
    reports one matched and one modified record, which is exactly when some
    stored record passes the filter: a matched record is always modified,
    because the write sets [updateTs] to the candidate, which the gate
    guarantees is not the stored value.  A field-change set equal to the
    stored values therefore still returns [true] when the gate is open, and
    changes [updateTs] alone.  Every rejection is the value [false] and
    leaves the world as it was. *)
Theorem updateTag_accepts_iff_matched (userId tagId : string) (updates : Doc)
    (candidateTs : Z) (w : World) :
  let q := updateTag_filter userId tagId candidateTs in
  let r := updateOne q (<["updateTs" := VNum candidateTs]> updates)
                     (tagModel w) in
  let out := updateTag userId tagId updates (Some candidateTs) w in
  (out.1 = true ↔ matchedCount r.1 = 1%nat ∧ modifiedCount r.1 = 1%nat)
  ∧ (matchedCount r.1 = 1%nat ↔ modifiedCount r.1 = 1%nat)
  ∧ (out.1 = true ↔ ∃ d, d ∈ tagModel w ∧ matches q d = true)
  ∧ (out.1 = false → out.2 = w)
  ∧ (∀ i d, unique_ids (tagModel w) → tagModel w !! i = Some d →
       matches q d = true → updates ⊆ d →
       out = (true,
              setTags (<[i := <["updateTs" := VNum candidateTs]> d]>
                         (tagModel w)) w)).
Proof.
  intros q r out. subst out r. rewrite updateTag_unfold. fold q.
  assert (∀ d, matches q d = true
               ↔ owned_active userId tagId d ∧ gate_open candidateTs d) as Hq
    by apply updateTag_filter_iff.
  clearbody q.
  destruct (updateOne_cases q (<["updateTs" := VNum candidateTs]> updates)
              (tagModel w))
    as [[Hmiss Heq]|(i & d & Hi & Hd & Hbefore & Heq)].
  - rewrite Heq. cbn. split_and!.
    + split; [done|by intros [? _]].
    + done.
    + split; [done|]. intros (d & Hin & Hd). by rewrite (Hmiss d Hin) in Hd.
    + intros _. apply setTags_same.
    + intros i d _ Hi Hd _. exfalso.
      rewrite (Hmiss d) in Hd; [done|]. apply list_elem_of_lookup. eauto.
  - assert (gate_open candidateTs d) as Hgate by by apply Hq.
    rewrite Heq. cbn. fold (updated updates candidateTs d).
    rewrite decide_False by by apply updated_ne. cbn. split_and!.
    + done.
    + done.
    + split; [|done]. intros _. exists d. split; [|done].
      apply list_elem_of_lookup. eauto.
    + done.
    + intros j e Hu Hj He Hsub. f_equal.
      assert (j = i) as ->.
      { apply (unique_ids_lookup (tagModel w) j i e d Hu Hj Hi).
        apply Hq in He, Hd.
        destruct He as [(-> & _) _], Hd as [(-> & _) _]. done. }
      assert (e = d) as -> by congruence.
      do 2 f_equal. unfold updated. apply map_eq. intros k.
      destruct (decide (k = "updateTs")) as [->|Hk].
      * rewrite lookup_insert_eq. apply lookup_union_Some_l, lookup_insert_eq.
      * rewrite lookup_insert_ne by done.
        destruct (updates !! k) as [v|] eqn:Hv.
        -- rewrite (lookup_union_Some_l _ _ _ v)
             by by rewrite lookup_insert_ne.
           symmetry. by eapply lookup_weaken.
        -- apply lookup_union_r. by rewrite lookup_insert_ne.
Qed.

(** *** Racing writers *)

Lemma unique_ids_insert (coll : list Doc) i (d d' : Doc) :
  unique_ids coll → coll !! i = Some d → d' !! "_id" = d !! "_id" →
  unique_ids (<[i := d']> coll).
Proof.
  unfold unique_ids. intros Hu Hi Hid. rewrite list_fmap_insert.
  rewrite list_insert_id; [done|]. by rewrite list_lookup_fmap, Hi, Hid.
Qed.

Lemma payload_only_None (updates : Doc) k :
  payload_only updates → k ∉ payload_fields → updates !! k = None.
Proof.
  intros Hp Hk. apply not_elem_of_dom. intros Hin.
  apply Hp in Hin. by apply elem_of_list_to_set in Hin.
Qed.

Lemma updated_keeps updates ts (d : Doc) k :
  payload_only updates → k ∉ payload_fields → k ≠ "updateTs" →
  updated updates ts d !! k = d !! k.
Proof.
  intros Hp Hk Hne. unfold updated. apply lookup_union_r.
  rewrite lookup_insert_ne by done. by apply payload_only_None.
Qed.

Lemma updated_supplied updates ts (d : Doc) k v :
  payload_only updates → updates !! k = Some v →
  updated updates ts d !! k = Some v.
Proof.
  intros Hp Hk. unfold updated. apply lookup_union_Some_l.
  rewrite lookup_insert_ne; [done|]. intros <-.
  rewrite (payload_only_None updates "updateTs") in Hk; [done|done|].
  unfold payload_fields. not_in_list.
Qed.

Lemma updated_owned_active updates ts userId tagId (d : Doc) :
  payload_only updates → owned_active userId tagId d →
  owned_active userId tagId (updated updates ts d).
Proof.
  intros Hp (Hid & Hu & Hdel). unfold owned_active.
  rewrite !updated_keeps; try done; unfold payload_fields; not_in_list.
Qed.

Lemma updated_id updates ts (d : Doc) :
  payload_only updates → updated updates ts d !! "_id" = d !! "_id".
Proof.
  intros Hp. apply updated_keeps; [done| |done].
  unfold payload_fields. not_in_list.
Qed.

Lemma gate_open_after (updates : Doc) T1 T2 (d : Doc) :
  T1 < T2 → gate_open T2 (updated updates T1 d).
Proof.
  intros Hlt. right; right. exists T1. by rewrite updated_updateTs.
Qed.

Lemma gate_closed_after (updates : Doc) T1 T2 (d : Doc) :
  T1 ≤ T2 → ¬ gate_open T1 (updated updates T2 d).
Proof.
  intros Hle [Hn|[Hn|(m & Hm & Hlt)]]; rewrite updated_updateTs in *;
    simplify_eq; lia.
Qed.

Lemma carries_updated (u2 : Doc) T2 i (d : Doc) (c : list Doc) w :
  payload_only u2 → (i < length c)%nat →
  carries u2 T2 i (setTags (<[i := updated u2 T2 d]> c) w).
Proof.
  intros Hp Hi. exists (updated u2 T2 d). split_and!.
  - by apply list_lookup_insert_eq.
  - apply updated_updateTs.
  - intros k v Hk. by apply updated_supplied.
Qed.

Lemma carries_updateTs (u2 : Doc) T2 i w :
  carries u2 T2 i w →
  (tagModel w !! i) ≫= (.!! "updateTs") = Some (VNum T2).
Proof. intros (d & -> & Hts & _). exact Hts. Qed.

Lemma updated_lookup (updates : Doc) ts (d : Doc) k :
  updated updates ts d !! k
  = if decide (k = "updateTs") then Some (VNum ts)
    else match updates !! k with
         | Some v => Some v
         | None => d !! k
         end.
Proof.
  unfold updated. case_decide as Hk.
  - subst k. apply lookup_union_Some_l, lookup_insert_eq.
  - destruct (updates !! k) as [v|] eqn:Hv.
    + apply lookup_union_Some_l. by rewrite lookup_insert_ne.
    + apply lookup_union_r. by rewrite lookup_insert_ne.
Qed.

(** A later write that sets every field an earlier write set hides the
    earlier write. *)
Lemma updated_covers (u1 u2 : Doc) T1 T2 (d : Doc) :
  dom u1 ⊆ dom u2 →
  updated u2 T2 (updated u1 T1 d) = updated u2 T2 d.
Proof.
  intros Hdom. apply map_eq. intros k. rewrite !updated_lookup.
  case_decide as Hk; [done|].
  destruct (u2 !! k) as [v|] eqn:Hv; [done|].
  assert (u1 !! k = None) as ->; [|done].
  apply not_elem_of_dom. intros Hin%Hdom. by apply not_elem_of_dom in Hv.
Qed.

(** C3 (as amended). For an active record owned by the caller whose
    stored [updateTs] is absent, [null] or below [T2], and two [updateTag]
    calls with payload field changes and timestamps [T1 < T2]: in either
    arrival order the [T2] call returns [true] and the record ends with
    [updateTs = T2] and with the value the [T2] call supplied in every
    field it set.  When the [T2] call arrives first, the record ends as its
    write on the original record and the [T1] call returns [false] and
    changes nothing.  When the [T1] call arrives first, it returns [true]
    exactly if it passes the gate itself and is otherwise rejected without
    effect; the record ends as the [T2] write on top of the accepted [T1]
    write, so a field that only the [T1] call set keeps the [T1] value.
    When the [T2] call sets every field the [T1] call sets, both orders end
    in the same world. *)
Theorem updateTag_race_converges (userId tagId : string) (u1 u2 : Doc)
    (T1 T2 : Z) (w : World) (i : nat) (d : Doc) :
  unique_ids (tagModel w) → tagModel w !! i = Some d →
  owned_active userId tagId d →
  payload_only u1 → payload_only u2 → T1 < T2 →
  gate_open T2 d →
  let r := race userId tagId u1 u2 T1 T2 w in
  carries u2 T2 i (first_low r) ∧ carries u2 T2 i (first_high r)
  ∧ low_result_when_second r = false
  ∧ (low_effect_when_second r).2 = (low_effect_when_second r).1
  ∧ (low_result_when_first r = true ↔ gate_open T1 d)
  ∧ (low_result_when_first r = false →
     (updateTag userId tagId u1 (Some T1) w).2 = w)
  ∧ (updateTag userId tagId u2 (Some T2) w).1 = true
  ∧ (updateTag userId tagId u2 (Some T2)
       (updateTag userId tagId u1 (Some T1) w).2).1 = true
  ∧ first_high r = setTags (<[i := updated u2 T2 d]> (tagModel w)) w
  ∧ first_low r
    = setTags (<[i := updated u2 T2
                        (if low_result_when_first r
                         then updated u1 T1 d else d)]> (tagModel w)) w
  ∧ (dom u1 ⊆ dom u2 → first_low r = first_high r)
  ∧ (∀ k v, low_result_when_first r = true →
       u1 !! k = Some v → u2 !! k = None →
       ∃ e : Doc, tagModel (first_low r) !! i = Some e ∧ e !! k = Some v).
Proof.
  intros Hu Hi Hown Hp1 Hp2 Hlt Hgate r. subst r. unfold race.
  cbv zeta.
  cbn [first_low first_high low_result_when_first low_result_when_second
       low_effect_when_second].
  assert (i < length (tagModel w))%nat as Hlen by by eapply lookup_lt_Some.
  (* T2 first *)
  rewrite (updateTag_hit userId tagId u2 T2 w i d) by done. cbn [fst snd].
  rewrite (updateTag_reject userId tagId u1 T1
             (setTags (<[i := updated u2 T2 d]> (tagModel w)) w)
             i (updated u2 T2 d));
    cbn [fst snd setTags tagModel].
  2: by eapply unique_ids_insert; [| |apply updated_id].
  2: by apply list_lookup_insert_eq.
  2: rewrite updated_id by done; apply Hown.
  2: intros [_ Hg]; by apply gate_closed_after in Hg; [|lia].
  (* T1 first *)
  destruct (matches (updateTag_filter userId tagId T1) d) eqn:Hm.
  - apply updateTag_filter_iff in Hm as [_ Hg1].
    rewrite (updateTag_hit userId tagId u1 T1 w i d) by done.
    cbn [fst snd].
    rewrite (updateTag_hit userId tagId u2 T2
               (setTags (<[i := updated u1 T1 d]> (tagModel w)) w)
               i (updated u1 T1 d));
      cbn [fst snd setTags tagModel tagSharedModel clockReads].
    + rewrite list_insert_insert_eq. split_and!; try done.
      * by apply carries_updated.
      * by apply carries_updated.
      * intros Hdom. by rewrite updated_covers.
      * intros k v _ Hk1 Hk2. eexists. split.
        -- by apply list_lookup_insert_eq.
        -- rewrite updated_lookup, Hk2.
           assert (k ≠ "updateTs") as Hne.
           { intros ->.
             rewrite (payload_only_None u1 "updateTs") in Hk1;
               [done|done|]. unfold payload_fields. not_in_list. }
           rewrite decide_False by done. by apply updated_supplied.
    + by eapply unique_ids_insert; [| |apply updated_id].
    + by apply list_lookup_insert_eq.
    + by apply updated_owned_active.
    + by apply gate_open_after.
  - assert (¬ (owned_active userId tagId d ∧ gate_open T1 d)) as Hno.
    { intros Hboth. apply updateTag_filter_iff in Hboth. congruence. }
    rewrite (updateTag_reject userId tagId u1 T1 w i d);
      [|done|done|apply Hown|done]. cbn [fst snd].
    rewrite (updateTag_hit userId tagId u2 T2 w i d) by done.
    cbn [fst snd setTags tagModel tagSharedModel clockReads].
    split_and!; try done.
    1,2: by apply carries_updated.
    split; [done|]. intros Hg. destruct Hno. done.
Qed.

(** *** Soft delete *)

Lemma deleteSoftTag_unfold userId tagId deleteTs w :
  deleteSoftTag userId tagId deleteTs w
  = (let r := updateOne (deleteSoftTag_filter userId tagId)
                        (deleteSoftTag_fields deleteTs) (tagModel w) in
     (acknowledged r.1 && bool_decide (0 < modifiedCount r.1)%nat,
      setTags r.2 w)).
Proof.
  unfold deleteSoftTag, bind, ret, onTags.
  destruct (updateOne _ _ _) as [r c]. simpl.
  by destruct (acknowledged r && _).
Qed.

Lemma tombstone_lookup deleteTs (d : Doc) k :
  tombstone deleteTs d !! k
  = if decide (k = "tag") then Some (VStr "")
    else if decide (k = "deleted") then Some (VBool true)
    else if decide (k = "encKey") then Some (VStr "")
    else if decide (k = "encConfig") then Some (VStr "")
    else if decide (k = "deleteTs") then Some (VStr deleteTs)
    else d !! k.
Proof.
  unfold tombstone, deleteSoftTag_fields, obj.
  repeat case_decide; subst.
  1-5: apply lookup_union_Some_l; by simplify_map_eq.
  apply lookup_union_r. by simplify_map_eq.
Qed.

Lemma tombstone_ne deleteTs userId tagId (d : Doc) :
  owned_active userId tagId d → tombstone deleteTs d ≠ d.
Proof.
  intros (_ & _ & Hdel) Heq.
  pose proof (tombstone_lookup deleteTs d "deleted") as Hl.
  rewrite Heq, Hdel in Hl. done.
Qed.

Lemma deleteSoftTag_hit userId tagId deleteTs w i (d : Doc) :
  unique_ids (tagModel w) → tagModel w !! i = Some d →
  owned_active userId tagId d →
  deleteSoftTag userId tagId deleteTs w
  = (true, setTags (<[i := tombstone deleteTs d]> (tagModel w)) w).
Proof.
  intros Hu Hi Hown. rewrite deleteSoftTag_unfold.
  rewrite (updateOne_by_id _ _ _ i d (VStr tagId) Hu Hi).
  - assert (matches (deleteSoftTag_filter userId tagId) d = true) as ->
      by by apply deleteSoftTag_filter_iff.
    cbn -[deleteSoftTag_filter deleteSoftTag_fields].
    fold (tombstone deleteTs d).
    by rewrite decide_False by by eapply tombstone_ne.
  - apply Hown.
  - intros e He. apply deleteSoftTag_filter_iff in He. apply He.
Qed.

(** C4. [deleteSoftTag] succeeds on every active record owned by the
    caller, whatever the stored [updateTs] and the supplied [deleteTs] are:
    no condition on either is assumed.  The write sets [deleted] to [true],
    [tag], [encKey] and [encConfig] to the empty string and [deleteTs] to
    the supplied value, and leaves every other field as it was.  It
    succeeds only if some stored record has this identifier and owner and
    [deleted = false]. *)
Theorem deleteSoftTag_ungated (userId tagId deleteTs : string) (w : World)
    (i : nat) (d : Doc) :
  unique_ids (tagModel w) → tagModel w !! i = Some d →
  owned_active userId tagId d →
  let d' := tombstone deleteTs d in
  deleteSoftTag userId tagId deleteTs w
  = (true, setTags (<[i := d']> (tagModel w)) w)
  ∧ d' !! "deleted" = Some (VBool true)
  ∧ d' !! "tag" = Some (VStr "")
  ∧ d' !! "encKey" = Some (VStr "")
  ∧ d' !! "encConfig" = Some (VStr "")
  ∧ d' !! "deleteTs" = Some (VStr deleteTs)
  ∧ (∀ k, k ∉ ["tag"; "deleted"; "encKey"; "encConfig"; "deleteTs"] →
       d' !! k = d !! k)
  ∧ (∀ w0, (deleteSoftTag userId tagId deleteTs w0).1 = true →
       ∃ e, e ∈ tagModel w0 ∧ owned_active userId tagId e).
Proof.
  intros Hu Hi Hown d'. subst d'. split_and!.
  - by apply deleteSoftTag_hit.
  - by rewrite tombstone_lookup.
  - by rewrite tombstone_lookup.
  - by rewrite tombstone_lookup.
  - by rewrite tombstone_lookup.
  - by rewrite tombstone_lookup.
  - intros k Hk. rewrite tombstone_lookup.
    rewrite !not_elem_of_cons in Hk. destruct Hk as (?&?&?&?&?&_).
    by rewrite !decide_False by done.
  - intros w0. rewrite deleteSoftTag_unfold.
    destruct (updateOne_cases (deleteSoftTag_filter userId tagId)
                (deleteSoftTag_fields deleteTs) (tagModel w0))
      as [[_ ->]|(j & e & Hj & He & _ & _)]; [done|].
    intros _. exists e. split; [apply list_elem_of_lookup; eauto|].
    by apply deleteSoftTag_filter_iff.
Qed.

(** *** Tombstones *)

Lemma updateTag_tags userId tagId updates updateTs w :
  let r := updateOne (updateTag_filter userId tagId (candidate updateTs w))
                     (<["updateTs" := VNum (candidate updateTs w)]> updates)
                     (tagModel w) in
  (updateTag userId tagId updates updateTs w).1
  = acknowledged r.1 && bool_decide (0 < modifiedCount r.1)%nat
  ∧ tagModel (updateTag userId tagId updates updateTs w).2 = r.2.
Proof.
  unfold updateTag, bind, orDefault, ret, onTags, dateNow, candidate.
  destruct updateTs as [ts|]; cbn;
    destruct (updateOne _ _ _) as [r c]; cbn;
    by destruct (acknowledged r && _).
Qed.

Lemma updateTagDetails_eq userId tagId tag encKey encConfig updateTs
    schemaVersion w :
  updateTagDetails userId tagId tag encKey encConfig updateTs schemaVersion w
  = updateTag userId tagId
      (obj [("tag", Some (VStr tag)); ("encKey", Some (VStr encKey));
            ("encConfig", Some (VStr encConfig));
            ("schemaVersion", Some (VNum schemaVersion))])
      (Some updateTs) w.
Proof.
  unfold updateTagDetails, bind, ret.
  by destruct (updateTag _ _ _ _ w) as [[] w'].
Qed.

Lemma updateOne_keeps q fieldSet (coll : list Doc) i (d : Doc) :
  coll !! i = Some d → matches q d = false →
  (updateOne q fieldSet coll).2 !! i = Some d.
Proof.
  intros Hi Hd.
  destruct (updateOne_cases q fieldSet coll)
    as [[_ ->]|(j & e & Hj & He & _ & ->)]; [done|]. cbn.
  rewrite list_lookup_insert_ne; [done|]. intros ->. congruence.
Qed.

Lemma deleted_no_update userId tagId ts (d : Doc) :
  d !! "deleted" = Some (VBool true) →
  matches (updateTag_filter userId tagId ts) d = false.
Proof.
  intros Hdel. apply not_true_is_false. intros Hm.
  apply updateTag_filter_iff in Hm as [(_ & _ & Hd) _]. congruence.
Qed.

Lemma deleted_no_delete userId tagId (d : Doc) :
  d !! "deleted" = Some (VBool true) →
  matches (deleteSoftTag_filter userId tagId) d = false.
Proof.
  intros Hdel. apply not_true_is_false. intros Hm.
  apply deleteSoftTag_filter_iff in Hm as (_ & _ & Hd). congruence.
Qed.

Lemma perform_keeps_tombstone c w i (d : Doc) :
  tagModel w !! i = Some d → d !! "deleted" = Some (VBool true) →
  tagModel (perform c w).2 !! i = Some d.
Proof.
  intros Hi Hdel. destruct c; cbn [perform].
  - destruct (updateTag_tags userId tagId updates updateTs w) as [_ ->].
    apply updateOne_keeps; [done|by apply deleted_no_update].
  - rewrite updateTagDetails_eq.
    destruct (updateTag_tags userId tagId
                (obj [("tag", Some (VStr tag)); ("encKey", Some (VStr encKey));
                      ("encConfig", Some (VStr encConfig));
                      ("schemaVersion", Some (VNum schemaVersion))])
                (Some updateTs) w) as [_ ->].
    apply updateOne_keeps; [done|by apply deleted_no_update].
  - rewrite deleteSoftTag_unfold. cbn [snd setTags tagModel].
    apply updateOne_keeps; [done|by apply deleted_no_delete].
Qed.

Lemma perform_rejected_on_tombstone c w i (d : Doc) :
  unique_ids (tagModel w) → tagModel w !! i = Some d →
  d !! "deleted" = Some (VBool true) → d !! "_id" = Some (VStr (target c)) →
  (perform c w).1 = false ∧ tagModel (perform c w).2 = tagModel w.
Proof.
  intros Hu Hi Hdel Hid.
  assert (∀ userId ts fieldSet,
    updateOne (updateTag_filter userId (target c) ts) fieldSet (tagModel w)
    = (no_match, tagModel w)) as Hupd.
  { intros userId ts fieldSet.
    rewrite (updateOne_by_id _ _ _ i d (VStr (target c)) Hu Hi Hid).
    - by rewrite deleted_no_update.
    - intros e He. apply updateTag_filter_iff in He. apply He. }
  destruct c; cbn [perform target] in *.
  - destruct (updateTag_tags userId tagId updates updateTs w) as [-> ->].
    by rewrite Hupd.
  - rewrite updateTagDetails_eq.
    destruct (updateTag_tags userId tagId
                (obj [("tag", Some (VStr tag)); ("encKey", Some (VStr encKey));
                      ("encConfig", Some (VStr encConfig));
                      ("schemaVersion", Some (VNum schemaVersion))])
                (Some updateTs) w) as [-> ->].
    by rewrite Hupd.
  - rewrite deleteSoftTag_unfold.
    rewrite (updateOne_by_id _ _ _ i d (VStr tagId) Hu Hi Hid).
    + by rewrite deleted_no_delete.
    + intros e He. apply deleteSoftTag_filter_iff in He. apply He.
Qed.

(** C5. A record with [deleted = true] is never modified again by
    [updateTag], [updateTagDetails] or [deleteSoftTag]: after any sequence
    of such calls, with any arguments, it is still stored unchanged at its
    position, and each call that addresses its identifier returns [false]
    and leaves the collection as it was.  So a tombstone is never
    resurrected, given payload, or deleted a second time. *)
Theorem tombstone_is_final (w : World) (i : nat) (d : Doc) :
  tagModel w !! i = Some d → d !! "deleted" = Some (VBool true) →
  (∀ calls, tagModel (run calls w) !! i = Some d)
  ∧ (∀ c, unique_ids (tagModel w) → d !! "_id" = Some (VStr (target c)) →
       (perform c w).1 = false ∧ tagModel (perform c w).2 = tagModel w).
Proof.
  intros Hi Hdel. split.
  - intros calls. revert w Hi.
    induction calls as [|c rest IH]; intros w Hi; [done|].
    cbn [run]. apply IH. by apply perform_keeps_tombstone.
  - intros c Hu Hid. by eapply perform_rejected_on_tombstone.
Qed.

(** *** Read paths *)

Lemma project_lookup_Some fields (d : Doc) k v :
  project fields d !! k = Some v → d !! k = Some v.
Proof. unfold project. by intros [? _]%map_lookup_filter_Some. Qed.

Lemma project_lookup_in fields (d : Doc) k :
  k = "_id" ∨ k ∈ fields → project fields d !! k = d !! k.
Proof.
  intros Hk. unfold project. destruct (d !! k) as [v|] eqn:Hd.
  - by apply map_lookup_filter_Some_2.
  - apply map_lookup_filter_None_2. by left.
Qed.

Lemma elem_of_find_projected q fields (coll : list Doc) (e : Doc) :
  e ∈ find q (Some fields) coll
  ↔ ∃ e0, e = project fields e0 ∧ e0 ∈ coll ∧ matches q e0 = true.
Proof.
  unfold find. rewrite list_elem_of_fmap.
  split; intros (e0 & -> & H); exists e0; (split; [done|]);
    rewrite list_elem_of_In, filter_In, <- list_elem_of_In in *; done.
Qed.

Lemma elem_of_find_plain q (coll : list Doc) (e : Doc) :
  e ∈ find q None coll ↔ e ∈ coll ∧ matches q e = true.
Proof.
  unfold find. by rewrite list_elem_of_In, filter_In, <- list_elem_of_In.
Qed.

Lemma user_deleted_filter_iff userId (b : bool) (d : Doc) :
  matches (QAnd [QField "userId" (CEq (VStr userId));
                 QField "deleted" (CEq (VBool b))]) d = true
  ↔ d !! "userId" = Some (VStr userId) ∧ d !! "deleted" = Some (VBool b).
Proof.
  cbn [matches forallb]. rewrite !andb_true_iff.
  rewrite !cond_eq_iff by done. tauto.
Qed.

Lemma getAllTagsSync_filter_iff userId (d : Doc) :
  matches (getAllTagsSync_filter userId) d = true
  ↔ d !! "userId" = Some (VStr userId).
Proof.
  unfold getAllTagsSync_filter. cbn [matches forallb].
  rewrite !andb_true_iff. rewrite !cond_eq_iff by done. tauto.
Qed.

(** C6. After [deleteSoftTag] has succeeded on a record,
    [getAllCurrentTags] for its owner returns no document with that
    identifier, while [getAllTagsSync] returns the tombstone (under the
    sync projection), whose [deleted] is [true] and whose [tag], [encKey]
    and [encConfig] are empty; every field the sync projection names is
    exposed with the stored value.  [getAllTagsSync] returns every stored
    record of the user, tombstones included. *)
Theorem softDelete_then_fetch (userId tagId deleteTs : string) (w : World)
    (i : nat) (d : Doc) :
  unique_ids (tagModel w) → tagModel w !! i = Some d →
  owned_active userId tagId d →
  let out := deleteSoftTag userId tagId deleteTs w in
  let stored := tombstone deleteTs d in
  let view := project (String.words apiFieldsSync) stored in
  out.1 = true
  ∧ (∃ tags, (getAllCurrentTags userId out.2).1 = inl tags ∧
       ∀ e : Doc, e ∈ tags → e !! "_id" ≠ Some (VStr tagId))
  ∧ (∃ tags, (getAllTagsSync userId out.2).1 = inl tags ∧ view ∈ tags)
  ∧ stored !! "deleted" = Some (VBool true)
  ∧ stored !! "tag" = Some (VStr "")
  ∧ stored !! "encKey" = Some (VStr "")
  ∧ stored !! "encConfig" = Some (VStr "")
  ∧ view !! "_id" = Some (VStr tagId)
  ∧ (∀ k, k ∈ String.words apiFieldsSync → view !! k = stored !! k)
  ∧ (∀ w0 (e : Doc), e ∈ tagModel w0 → e !! "userId" = Some (VStr userId) →
       ∃ tags, (getAllTagsSync userId w0).1 = inl tags ∧
         project (String.words apiFieldsSync) e ∈ tags).
Proof.
  intros Hu Hi Hown out stored view. subst out stored view.
  rewrite (deleteSoftTag_hit userId tagId deleteTs w i d) by done.
  cbn [fst snd].
  assert (i < length (tagModel w))%nat as Hlen by by eapply lookup_lt_Some.
  assert (tombstone deleteTs d !! "_id" = Some (VStr tagId)) as Hid.
  { rewrite tombstone_lookup. cbn. apply Hown. }
  assert (tombstone deleteTs d !! "userId" = Some (VStr userId)) as Huser.
  { rewrite tombstone_lookup. cbn. apply Hown. }
  split_and!; try done; try (by rewrite tombstone_lookup).
  - eexists. split; [reflexivity|]. intros e He Heid.
    unfold readTags in He. cbn [fst setTags tagModel] in He.
    apply elem_of_find_projected in He as (e0 & -> & Hin & Hm).
    apply project_lookup_Some in Heid.
    apply list_elem_of_lookup in Hin as [j Hj].
    assert (j = i) as ->.
    { eapply (unique_ids_lookup (<[i := tombstone deleteTs d]> (tagModel w))).
      - eapply unique_ids_insert; [done|done|].
        rewrite Hid. symmetry. apply Hown.
      - done.
      - by apply list_lookup_insert_eq.
      - by rewrite Heid, Hid. }
    rewrite list_lookup_insert_eq in Hj by done. injection Hj as <-.
    apply user_deleted_filter_iff in Hm as [_ Hdel].
    by rewrite tombstone_lookup in Hdel.
  - eexists. split; [reflexivity|].
    unfold readTags. cbn [fst setTags tagModel].
    apply elem_of_find_projected. exists (tombstone deleteTs d).
    split_and!; [done| |by apply getAllTagsSync_filter_iff].
    apply list_elem_of_lookup. exists i. by apply list_lookup_insert_eq.
  - rewrite project_lookup_in by by left. done.
  - intros k Hk. apply project_lookup_in. by right.
  - intros w0 e He Hue. eexists. split; [reflexivity|].
    unfold readTags. cbn [fst].
    apply elem_of_find_projected. exists e.
    split_and!; [done|done|by apply getAllTagsSync_filter_iff].
Qed.

(** C10. [getAllTagsForBackup] returns exactly the stored documents of the
    user whose [deleted] is [false], each as it is stored (no projection is
    applied); a tombstone of the user is not part of the backup. *)
Theorem getAllTagsForBackup_active_only (userId : string) (w : World) :
  ∃ tags, getAllTagsForBackup userId w = (inl tags, w)
  ∧ tags = List.filter (matches (getAllTagsForBackup_filter userId))
                       (tagModel w)
  ∧ (∀ e : Doc, e ∈ tags ↔
       e ∈ tagModel w ∧ e !! "userId" = Some (VStr userId) ∧
       e !! "deleted" = Some (VBool false))
  ∧ (∀ e : Doc, e !! "deleted" = Some (VBool true) → e ∉ tags).
Proof.
  eexists. split; [reflexivity|]. split; [reflexivity|].
  assert (∀ e : Doc,
    e ∈ List.filter (matches (getAllTagsForBackup_filter userId)) (tagModel w)
    ↔ e ∈ tagModel w ∧ e !! "userId" = Some (VStr userId) ∧
      e !! "deleted" = Some (VBool false)) as Hchar.
  { intros e.
    rewrite <- (user_deleted_filter_iff userId false e).
    apply (elem_of_find_plain (getAllTagsForBackup_filter userId)). }
  split; [done|].
  intros e Hdel [_ [_ Hact]]%Hchar. congruence.
Qed.

(** *** Bulk import *)

Lemma stamped_cons reads tag (json : list Doc) :
  stamped reads (tag :: json)
  = addTagsFromJson_fields tag (Date_now reads) :: stamped (S reads) json.
Proof.
  unfold stamped. rewrite imap_cons. f_equal.
  - by rewrite Nat.add_0_r.
  - apply imap_ext. intros k x _. unfold compose.
    by replace (reads + S k)%nat with (S reads + k)%nat by lia.
Qed.

Lemma stamped_lookup reads (json : list Doc) k :
  stamped reads json !! k
  = (fun tag => addTagsFromJson_fields tag (Date_now (reads + k)))
      <$> json !! k.
Proof. unfold stamped. by rewrite list_lookup_imap. Qed.

Lemma stamped_length reads (json : list Doc) :
  length (stamped reads json) = length json.
Proof. unfold stamped. apply length_imap. Qed.

Lemma obj_lookup_here k o rest :
  obj ((k, o) :: rest) !! k
  = match o with Some v => Some v | None => obj rest !! k end.
Proof. destruct o; cbn; [apply lookup_insert_eq|done]. Qed.

Lemma obj_lookup_skip k k' o rest :
  k' ≠ k → obj ((k', o) :: rest) !! k = obj rest !! k.
Proof. intros Hne. destruct o; cbn; [by apply lookup_insert_ne|done]. Qed.

Ltac obj_lookup :=
  repeat first
    [ rewrite obj_lookup_skip by done
    | rewrite obj_lookup_here ];
  cbn [obj]; rewrite ?lookup_empty.

Lemma addTagsFromJson_fields_updateTs (tag : Doc) now :
  addTagsFromJson_fields tag now !! "updateTs" = Some (VNum now).
Proof. unfold addTagsFromJson_fields. by obj_lookup. Qed.

Lemma addTagsFromJson_fields_copied (tag : Doc) now k :
  k ∈ ["_id"; "dId"; "lId"; "userId"; "deleted"; "tag"; "encKey";
       "encConfig"; "createTs"; "deleteTs"; "schemaVersion"] →
  addTagsFromJson_fields tag now !! k = tag !! k.
Proof.
  intros Hk. unfold addTagsFromJson_fields.
  repeat (apply elem_of_cons in Hk as [->|Hk];
          [obj_lookup; by destruct (tag !! _)|]).
  by apply elem_of_nil in Hk.
Qed.

Lemma addTagsFromJson_loop_spec (json : list Doc) :
  ∀ success w, truthy success = true →
  let out := addTagsFromJson_loop success json w in
  ∃ n, (n ≤ length json)%nat ∧
    let docs := stamped (clockReads w) (take n json) in
    tagModel out.2 = tagModel w ++ docs
    ∧ tagSharedModel out.2 = tagSharedModel w
    ∧ (∀ k doc, docs !! k = Some doc →
         create_accepts (tagModel w ++ take k docs) doc = true)
    ∧ (n = length json →
         truthy out.1 = true ∧ clockReads out.2 = (clockReads w + n)%nat)
    ∧ (n < length json →
         out.1 = SDoc None
         ∧ clockReads out.2 = (clockReads w + n + 1)%nat
         ∧ ∃ tag, json !! n = Some tag ∧
             create_accepts (tagModel w ++ docs)
               (addTagsFromJson_fields tag (Date_now (clockReads w + n)))
             = false)%nat.
Proof.
  induction json as [|tag rest IH]; intros success w Hs out; subst out.
  - exists 0%nat. cbn. rewrite app_nil_r, Nat.add_0_r.
    split_and!; try done; lia.
  - cbn [addTagsFromJson_loop]. unfold bind, dateNow, onTags, create.
    cbn [tagModel]. unfold and_assign. rewrite Hs.
    destruct (create_accepts (tagModel w) _) eqn:Hacc; cbn [truthy negb].
    + set (w1 := setTags _ _).
      destruct (IH (SDoc (Some (addTagsFromJson_fields tag
                                  (Date_now (clockReads w))))) w1 eq_refl)
        as (n & Hn & Htags & Hshared & Hacc' & Hall & Hstop).
      exists (S n). cbn [length firstn]. rewrite stamped_cons.
      subst w1. cbn [setTags tagModel tagSharedModel clockReads] in *.
      rewrite <- !app_assoc in *. cbn [app] in *.
      split_and!; [lia|done|done| | |].
      * intros [|k] doc Hk; cbn in Hk.
        -- injection Hk as <-. by rewrite app_nil_r.
        -- specialize (Hacc' k doc Hk).
           by rewrite <- app_assoc in Hacc'.
      * intros [= ->]. destruct (Hall eq_refl) as [-> ->]. split; [done|lia].
      * intros Hlt. destruct Hstop as (-> & -> & tag' & Htag & Hrej); [lia|].
        split_and!; [done|lia|]. exists tag'. split; [done|].
        by replace (clockReads w + S n)%nat with (S (clockReads w) + n)%nat
          by lia.
    + exists 0%nat. cbn. rewrite app_nil_r, Nat.add_0_r.
      split_and!; try done; try lia.
      intros _. split_and!; [done|lia|]. by exists tag.
Qed.

(** C7. [addTagsFromJson] inserts the records of the batch in order and
    stops at the first one for which [create] hands back no document: the
    records before it are in the collection (nothing is rolled back), the
    rejected record and all later ones are not, no later insert is
    attempted (the clock was read once per attempt), and the result is the
    falsy value [create] returned.  The result is truthy exactly when every
    record of the batch was inserted. *)
Theorem addTagsFromJson_stops_at_first_failure (json : list Doc)
    (w : World) :
  let out := addTagsFromJson json w in
  ∃ n, (n ≤ length json)%nat ∧
    let docs := stamped (clockReads w) (take n json) in
    tagModel out.2 = tagModel w ++ docs
    ∧ (∀ k doc, docs !! k = Some doc →
         create_accepts (tagModel w ++ take k docs) doc = true)
    ∧ (truthy out.1 = true ↔ n = length json)
    ∧ (n < length json →
         out.1 = SDoc None
         ∧ clockReads out.2 = (clockReads w + n + 1)%nat
         ∧ ∃ tag, json !! n = Some tag ∧
             create_accepts (tagModel w ++ docs)
               (addTagsFromJson_fields tag (Date_now (clockReads w + n)))
             = false)%nat.
Proof.
  intros out. subst out. unfold addTagsFromJson.
  destruct (addTagsFromJson_loop_spec json (SBool true) w eq_refl)
    as (n & Hn & Htags & _ & Hacc & Hall & Hstop).
  exists n. split_and!; try done.
  split.
  - intros Ht. destruct (decide (n = length json)) as [|Hne]; [done|].
    destruct Hstop as (Hnull & _); [lia|]. by rewrite Hnull in Ht.
  - intros Heq. by apply Hall.
Qed.

(** C9. Every record of the batch whose insert is reached and accepted
    (all inserts up to and including its own are accepted by the store, or
    the result of the import is truthy) is stored, at its place behind the
    documents that were there, with the clock reading taken for its insert
    as [updateTs], whatever [updateTs] the record carried, and with the
    record's own [_id], [createTs], [deleteTs] and [deleted]. *)
Theorem addTagsFromJson_stamps_updateTs (json : list Doc) (w : World)
    (k : nat) (tag : Doc) :
  json !! k = Some tag →
  (truthy (addTagsFromJson json w).1 = true
   ∨ ∀ j (tag_j : Doc), (j ≤ k)%nat → json !! j = Some tag_j →
       create_accepts (tagModel w ++ stamped (clockReads w) (take j json))
         (addTagsFromJson_fields tag_j (Date_now (clockReads w + j)))
       = true) →
  ∃ doc : Doc,
    tagModel (addTagsFromJson json w).2 !! (length (tagModel w) + k)%nat
    = Some doc
    ∧ doc !! "updateTs" = Some (VNum (Date_now (clockReads w + k)))
    ∧ ∀ f v, f ∈ ["_id"; "createTs"; "deleteTs"; "deleted"] →
        tag !! f = Some v → doc !! f = Some v.
Proof.
  intros Htag Hreached. unfold addTagsFromJson in *.
  destruct (addTagsFromJson_loop_spec json (SBool true) w eq_refl)
    as (n & Hn & Htags & _ & _ & _ & Hstop).
  assert (k < length json)%nat as Hk by by eapply lookup_lt_Some.
  assert (k < n)%nat as Hkn.
  { destruct (decide (k < n)%nat) as [|Hge]; [done|]. exfalso.
    destruct Hstop as (Hnull & _ & tag' & Htag' & Hrej); [lia|].
    destruct Hreached as [Ht|Hacc].
    - by rewrite Hnull in Ht.
    - rewrite (Hacc n tag') in Hrej; [done|lia|done]. }
  exists (addTagsFromJson_fields tag (Date_now (clockReads w + k))).
  split_and!.
  - rewrite Htags, lookup_app_r by lia.
    replace (length (tagModel w) + k - length (tagModel w))%nat with k
      by lia.
    by rewrite stamped_lookup, lookup_take_lt, Htag by done.
  - apply addTagsFromJson_fields_updateTs.
  - intros f v Hf Hv. rewrite addTagsFromJson_fields_copied; [done|].
    repeat (apply elem_of_cons in Hf as [->|Hf]; [in_list|]).
    by apply elem_of_nil in Hf.
Qed.

(** *** Shared tags *)

(** C8. The shared-collection writers are their owned counterparts run on
    the other collection: [updateTagShared] builds the same filter and the
    same field set, and derives its result by the same rule, as [updateTag];
    the same holds for [updateTagDetailsShared] and [updateTagDetails], and
    [updateTagDetailsShared] hands [updateTagShared] the field-change set
    ([tag], [encKey], [encConfig], [schemaVersion]) that [updateTagDetails]
    hands [updateTag]. *)
Theorem shared_mirrors_owned (userId tagId : string) (updates : Doc)
    (updateTs : option Z) (tag encKey encConfig : string)
    (ts schemaVersion : Z) (w : World) :
  (∀ t, updateTagShared_filter userId tagId t
        = updateTag_filter userId tagId t)
  ∧ updateTagShared userId tagId updates updateTs w
    = onOtherCollection (updateTag userId tagId updates updateTs) w
  ∧ updateTagDetailsShared userId tagId tag encKey encConfig ts
      schemaVersion w
    = onOtherCollection
        (updateTagDetails userId tagId tag encKey encConfig ts schemaVersion)
        w
  ∧ updateTagDetailsShared userId tagId tag encKey encConfig ts
      schemaVersion w
    = updateTagShared userId tagId
        (obj [("tag", Some (VStr tag)); ("encKey", Some (VStr encKey));
              ("encConfig", Some (VStr encConfig));
              ("schemaVersion", Some (VNum schemaVersion))])
        (Some ts) w.
Proof.
  assert (∀ us uts, updateTagShared userId tagId us uts w
                    = onOtherCollection (updateTag userId tagId us uts) w)
    as Hshared.
  { intros us uts.
    unfold updateTagShared, updateTag, onOtherCollection, swapModels, bind,
      orDefault, ret, onTags, onTagsShared, dateNow, setTags, setTagsShared.
    destruct w as [tags shared reads].
    destruct uts as [t|]; cbn [tagModel tagSharedModel clockReads];
      change (updateTagShared_filter userId tagId)
        with (updateTag_filter userId tagId);
      destruct (updateOne _ _ shared) as [r c];
      cbn [tagModel tagSharedModel clockReads];
      by destruct (acknowledged r && _). }
  split_and!.
  - done.
  - apply Hshared.
  - unfold updateTagDetailsShared, updateTagDetails, bind, ret.
    rewrite Hshared. unfold onOtherCollection, bind, ret.
    by destruct (updateTag _ _ _ _ (swapModels w)) as [[] w'].
  - unfold updateTagDetailsShared, bind, ret.
    by destruct (updateTagShared _ _ _ _ w) as [[] w'].
Qed.

(** ** Further properties of the service *)

Lemma apiFields_words :
  String.words apiFields
  = ["_id"; "dId"; "lId"; "userId"; "tag"; "deleted"; "encKey";
     "encConfig"; "createTs"; "updateTs"; "deleteTs"; "schemaVersion"].
Proof. reflexivity. Qed.

Lemma details_payload_only tag encKey encConfig schemaVersion :
  payload_only (details tag encKey encConfig schemaVersion).
Proof.
  unfold payload_only, details, obj.
  rewrite !dom_insert_L, dom_empty_L.
  intros k Hk. apply elem_of_list_to_set. unfold payload_fields.
  repeat (apply elem_of_union in Hk as [Hk%elem_of_singleton|Hk];
          [subst k; in_list|]).
  by apply not_elem_of_empty in Hk.
Qed.

(** *** Looking a tag up *)

Lemma pinned_only_match q (coll : list Doc) i (d : Doc) id :
  unique_ids coll → coll !! i = Some d → d !! "_id" = Some id →
  (∀ e, matches q e = true → e !! "_id" = Some id) →
  ∀ j e, coll !! j = Some e → j ≠ i → matches q e = false.
Proof.
  intros Hu Hi Hid Hq j e Hj Hne. destruct (matches q e) eqn:He; [|done].
  destruct Hne. apply (unique_ids_lookup coll j i e d); try done.
  by rewrite (Hq e He).
Qed.

Lemma find_miss q (coll : list Doc) :
  (∀ e, e ∈ coll → matches q e = false) → List.find (matches q) coll = None.
Proof.
  induction coll as [|d rest IH]; intros Hno; [done|]. cbn.
  rewrite (Hno d) by left. apply IH. intros e He. apply Hno. by right.
Qed.

Lemma find_hit q (coll : list Doc) i (d : Doc) :
  coll !! i = Some d → matches q d = true →
  (∀ j e, (j < i)%nat → coll !! j = Some e → matches q e = false) →
  List.find (matches q) coll = Some d.
Proof.
  revert i. induction coll as [|x rest IH]; intros i Hi Hd Hbefore; [done|].
  destruct i as [|i]; cbn in *.
  - injection Hi as ->. by rewrite Hd.
  - rewrite (Hbefore 0%nat x) by (done || lia).
    apply (IH i Hi Hd). intros j e Hj He.
    apply (Hbefore (S j) e); [lia|done].
Qed.

Lemma find_Some_matches q (coll : list Doc) (d : Doc) :
  List.find (matches q) coll = Some d → d ∈ coll ∧ matches q d = true.
Proof.
  intros [Hin Hm]%find_some. by rewrite list_elem_of_In.
Qed.

Lemma getTag_filter_iff userId tagId (d : Doc) :
  matches (getTag_filter userId tagId) d = true
  ↔ owned_active userId tagId d.
Proof.
  unfold owned_active, getTag_filter. cbn [matches forallb].
  rewrite !andb_true_iff. rewrite !cond_eq_iff by done. tauto.
Qed.

Lemma getTag_unfold userId tagId w :
  getTag userId tagId w
  = (match List.find (matches (getTag_filter userId tagId)) (tagModel w) with
     | Some d => inl (project (String.words apiFields) d)
     | None => inr false
     end, w).
Proof.
  unfold getTag, bind, ret, readTags, findOne.
  by destruct (List.find _ _).
Qed.

Lemma getTag_hit userId tagId w i (d : Doc) :
  unique_ids (tagModel w) → tagModel w !! i = Some d →
  owned_active userId tagId d →
  getTag userId tagId w = (inl (project (String.words apiFields) d), w).
Proof.
  intros Hu Hi Hown. rewrite getTag_unfold.
  rewrite (find_hit _ _ i d Hi); [done|by apply getTag_filter_iff|].
  intros j e Hj He.
  apply (pinned_only_match _ _ i d (VStr tagId) Hu Hi) with (j := j);
    [apply Hown| |done|lia].
  intros e' He'. apply getTag_filter_iff in He'. apply He'.
Qed.

Lemma getTag_none userId tagId w :
  (∀ d : Doc, d ∈ tagModel w → ¬ owned_active userId tagId d) →
  getTag userId tagId w = (inr false, w).
Proof.
  intros Hno. rewrite getTag_unfold. rewrite find_miss; [done|].
  intros e He. apply not_true_is_false. intros Hm.
  apply getTag_filter_iff in Hm. by apply (Hno e He).
Qed.

(** X1. [getTag] on an active record owned by the caller hands back that
    record under the [apiFields] projection, with every field [apiFields]
    names as it is stored, and leaves the world as it is. *)
Theorem getTag_found (userId tagId : string) (w : World) (i : nat)
    (d : Doc) :
  unique_ids (tagModel w) → tagModel w !! i = Some d →
  owned_active userId tagId d →
  getTag userId tagId w = (inl (project (String.words apiFields) d), w)
  ∧ ∀ k, k ∈ String.words apiFields →
      project (String.words apiFields) d !! k = d !! k.
Proof.
  intros Hu Hi Hown. split; [by eapply getTag_hit|].
  intros k Hk. apply project_lookup_in. by right.
Qed.

(** X2. [getTag] answers [false] exactly when no stored record has this
    identifier, this owner and [deleted = false]: an unknown identifier,
    another user's tag and a tombstone are all reported the same way.  Any
    document it does return is the projection of such a record. *)
Theorem getTag_missing (userId tagId : string) (w : World) :
  ((getTag userId tagId w).1 = inr false
   ↔ ∀ d : Doc, d ∈ tagModel w → ¬ owned_active userId tagId d)
  ∧ (∀ e, (getTag userId tagId w).1 = inl e →
       ∃ d : Doc, d ∈ tagModel w ∧ owned_active userId tagId d
         ∧ e = project (String.words apiFields) d)
  ∧ (∀ b, (getTag userId tagId w).1 = inr b → b = false).
Proof.
  rewrite getTag_unfold. cbn [fst].
  destruct (List.find _ _) as [d|] eqn:Hfind.
  - apply find_Some_matches in Hfind as [Hin Hm].
    apply getTag_filter_iff in Hm. split_and!.
    + split; [done|]. intros Hno. by destruct (Hno d Hin).
    + intros e [= <-]. by exists d.
    + done.
  - split_and!.
    + split; [|done]. intros _ d Hin Hown.
      apply getTag_filter_iff in Hown.
      apply list_elem_of_In in Hin.
      by rewrite (find_none _ _ Hfind d Hin) in Hown.
    + done.
    + by intros b [= <-].
Qed.

(** X3. Round trip: after [updateTagDetails] has been accepted, [getTag]
    returns the record with the [tag], [encKey], [encConfig],
    [schemaVersion] and [updateTs] of that call. *)
Theorem updateTagDetails_then_getTag (userId tagId tag encKey encConfig
    : string) (updateTs schemaVersion : Z) (w : World) (i : nat) (d : Doc) :
  unique_ids (tagModel w) → tagModel w !! i = Some d →
  owned_active userId tagId d → gate_open updateTs d →
  let out := updateTagDetails userId tagId tag encKey encConfig updateTs
               schemaVersion w in
  out.1 = true
  ∧ ∃ e : Doc, (getTag userId tagId out.2).1 = inl e
      ∧ e !! "tag" = Some (VStr tag)
      ∧ e !! "encKey" = Some (VStr encKey)
      ∧ e !! "encConfig" = Some (VStr encConfig)
      ∧ e !! "schemaVersion" = Some (VNum schemaVersion)
      ∧ e !! "updateTs" = Some (VNum updateTs)
      ∧ e !! "_id" = Some (VStr tagId).
Proof.
  intros Hu Hi Hown Hgate out. subst out. rewrite updateTagDetails_eq.
  fold (details tag encKey encConfig schemaVersion).
  assert (payload_only (details tag encKey encConfig schemaVersion)) as Hp
    by apply details_payload_only.
  rewrite (updateTag_hit userId tagId _ updateTs w i d) by done.
  cbn [fst snd]. split; [done|].
  set (d' := updated (details tag encKey encConfig schemaVersion) updateTs d).
  assert (i < length (tagModel w))%nat as Hlen by by eapply lookup_lt_Some.
  rewrite (getTag_hit userId tagId _ i d').
  - eexists. split; [reflexivity|].
    assert (∀ k, k ∈ String.words apiFields →
              project (String.words apiFields) d' !! k = d' !! k) as Hproj.
    { intros k Hk. apply project_lookup_in. by right. }
    rewrite !Hproj by (rewrite apiFields_words; in_list).
    subst d'. split_and!.
    + by apply updated_supplied.
    + by apply updated_supplied.
    + by apply updated_supplied.
    + by apply updated_supplied.
    + apply updated_updateTs.
    + rewrite updated_id by done. apply Hown.
  - cbn [setTags tagModel].
    by eapply unique_ids_insert; [| |apply updated_id].
  - cbn [setTags tagModel]. by apply list_lookup_insert_eq.
  - by apply updated_owned_active.
Qed.

(** *** How timestamps move *)

Lemma updateOne_lookup q fieldSet (coll : list Doc) i (d : Doc) :
  coll !! i = Some d →
  (updateOne q fieldSet coll).2 !! i = Some d
  ∨ (matches q d = true ∧
     (updateOne q fieldSet coll).2 !! i = Some (fieldSet ∪ d)).
Proof.
  intros Hi.
  destruct (updateOne_cases q fieldSet coll)
    as [[_ ->]|(j & e & Hj & He & _ & ->)]; [by left|]. cbn [snd].
  destruct (decide (j = i)) as [->|Hne].
  - right. assert (e = d) as -> by congruence. split; [done|].
    apply list_lookup_insert_eq. by eapply lookup_lt_Some.
  - left. by rewrite list_lookup_insert_ne.
Qed.

Lemma not_older_refl (d : Doc) : not_older d d.
Proof. intros m Hm. exists m. split; [done|lia]. Qed.

Lemma not_older_trans (d1 d2 d3 : Doc) :
  not_older d1 d2 → not_older d2 d3 → not_older d1 d3.
Proof.
  intros H12 H23 m Hm. destruct (H12 m Hm) as (m2 & Hm2 & Hle).
  destruct (H23 m2 Hm2) as (m3 & Hm3 & Hle'). exists m3. split; [done|lia].
Qed.

Lemma updated_not_older updates ts (d : Doc) :
  gate_open ts d → not_older d (updated updates ts d).
Proof.
  intros Hgate m Hm. exists ts. split; [apply updated_updateTs|].
  destruct Hgate as [Hn|[Hn|(m0 & Hm0 & Hlt)]]; rewrite Hm in *;
    simplify_eq; lia.
Qed.

Lemma tombstone_not_older deleteTs (d : Doc) :
  not_older d (tombstone deleteTs d).
Proof.
  intros m Hm. exists m. split; [|lia]. by rewrite tombstone_lookup.
Qed.

Lemma perform_not_older c w i (d : Doc) :
  tagModel w !! i = Some d →
  ∃ d', tagModel (perform c w).2 !! i = Some d' ∧ not_older d d'.
Proof.
  intros Hi.
  assert (∀ userId tagId updates updateTs,
    ∃ d', tagModel (updateTag userId tagId updates updateTs w).2 !! i
          = Some d' ∧ not_older d d') as Hupd.
  { intros userId tagId updates updateTs.
    destruct (updateTag_tags userId tagId updates updateTs w) as [_ ->].
    destruct (updateOne_lookup
                (updateTag_filter userId tagId (candidate updateTs w))
                (<["updateTs" := VNum (candidate updateTs w)]> updates)
                (tagModel w) i d Hi) as [->|[Hm ->]].
    - exists d. split; [done|apply not_older_refl].
    - eexists. split; [done|]. apply updateTag_filter_iff in Hm as [_ Hg].
      by apply (updated_not_older updates). }
  destruct c; cbn [perform].
  - apply Hupd.
  - rewrite updateTagDetails_eq. apply Hupd.
  - rewrite deleteSoftTag_unfold. cbn [snd setTags tagModel].
    destruct (updateOne_lookup (deleteSoftTag_filter userId tagId)
                (deleteSoftTag_fields deleteTs) (tagModel w) i d Hi)
      as [->|[_ ->]].
    + exists d. split; [done|apply not_older_refl].
    + eexists. split; [done|]. apply tombstone_not_older.
Qed.

(** X4. Under any sequence of [updateTag], [updateTagDetails] and
    [deleteSoftTag] calls, with any arguments (an omitted timestamp and
    arbitrary [updates] included), every record stays at its position and
    a numeric stored [updateTs] never moves backwards. *)
Theorem updateTs_never_decreases (calls : list Call) (w : World) (i : nat)
    (d : Doc) :
  tagModel w !! i = Some d →
  ∃ d', tagModel (run calls w) !! i = Some d' ∧ not_older d d'.
Proof.
  revert w d. induction calls as [|c rest IH]; intros w d Hi.
  - exists d. split; [done|apply not_older_refl].
  - cbn [run]. destruct (perform_not_older c w i d Hi) as (d1 & Hi1 & H1).
    destruct (IH _ d1 Hi1) as (d2 & Hi2 & H2).
    exists d2. split; [done|by eapply not_older_trans].
Qed.

(** X5. After [updateTag] has been accepted with timestamp [ts], any
    further [updateTag] on the same record with a timestamp [ts' ≤ ts] (a
    retry of the same call included) returns [false] and changes
    nothing. *)
Theorem accepted_write_closes_gate (userId tagId : string)
    (updates retry : Doc) (ts ts' : Z) (w : World) (i : nat) (d : Doc) :
  unique_ids (tagModel w) → tagModel w !! i = Some d →
  owned_active userId tagId d → gate_open ts d →
  payload_only updates → ts' ≤ ts →
  let out := updateTag userId tagId updates (Some ts) w in
  out.1 = true
  ∧ updateTag userId tagId retry (Some ts') out.2 = (false, out.2).
Proof.
  intros Hu Hi Hown Hgate Hp Hle out. subst out.
  rewrite (updateTag_hit userId tagId updates ts w i d) by done.
  cbn [fst snd]. split; [done|].
  apply (updateTag_reject _ _ _ _ _ i (updated updates ts d)).
  - cbn [setTags tagModel].
    by eapply unique_ids_insert; [| |apply updated_id].
  - cbn [setTags tagModel]. apply list_lookup_insert_eq.
    by eapply lookup_lt_Some.
  - rewrite updated_id by done. apply Hown.
  - intros [_ Hg]. by apply gate_closed_after in Hg.
Qed.

(** *** Hard delete *)

Lemma deleteOne_cases q (coll : list Doc) :
  ((∀ e, e ∈ coll → matches q e = false) ∧
   deleteOne q coll = ({| deletedCount := 0 |}, coll))
  ∨ (∃ i d, coll !! i = Some d ∧ matches q d = true ∧
       (∀ j e, (j < i)%nat → coll !! j = Some e → matches q e = false) ∧
       deleteOne q coll = ({| deletedCount := 1 |}, delete i coll)).
Proof.
  induction coll as [|x rest IH].
  - left. split; [by intros e ?%elem_of_nil|done].
  - cbn [deleteOne]. destruct (matches q x) eqn:Hx.
    + right. exists 0%nat, x. split_and!; [done|done|intros; lia|done].
    + destruct IH as [[Hno ->]|(i & d & Hi & Hd & Hbefore & ->)].
      * left. split; [|done].
        intros e [->|He]%elem_of_cons; [done|by apply Hno].
      * right. exists (S i), d. split_and!; [done|done| |done].
        intros [|j] e Hj He; cbn in He; [congruence|].
        apply (Hbefore j e); [lia|done].
Qed.

Lemma deleteHardTag_filter_iff userId tagId (d : Doc) :
  matches (deleteHardTag_filter userId tagId) d = true
  ↔ d !! "_id" = Some (VStr tagId) ∧ d !! "userId" = Some (VStr userId).
Proof.
  unfold deleteHardTag_filter. cbn [matches forallb].
  rewrite !andb_true_iff. rewrite !cond_eq_iff by done. tauto.
Qed.

Lemma deleteHardTag_unfold userId tagId w :
  deleteHardTag userId tagId w
  = (let r := deleteOne (deleteHardTag_filter userId tagId) (tagModel w) in
     (number_truthy (deletedCount r.1), setTags r.2 w)).
Proof.
  unfold deleteHardTag, bind, ret, onTags, result_truthy.
  destruct (deleteOne _ _) as [r c]. cbn.
  by destruct (number_truthy _).
Qed.

Lemma delete_forgets_id (coll : list Doc) i (d e : Doc) :
  unique_ids coll → coll !! i = Some d → e ∈ delete i coll →
  e !! "_id" ≠ d !! "_id".
Proof.
  intros Hu Hi [j Hj]%list_elem_of_lookup Heq.
  rewrite list_lookup_delete in Hj. case_decide as Hlt.
  - assert (j = i) by by eapply (unique_ids_lookup coll j i e d). lia.
  - assert (S j = i) by by eapply (unique_ids_lookup coll (S j) i e d). lia.
Qed.

Lemma getAllCurrentTags_unfold userId w :
  getAllCurrentTags userId w
  = (inl (find (getAllCurrentTags_filter userId)
               (Some (String.words apiFields)) (tagModel w)), w).
Proof. reflexivity. Qed.

Lemma getAllTagsSync_unfold userId w :
  getAllTagsSync userId w
  = (inl (find (getAllTagsSync_filter userId)
               (Some (String.words apiFieldsSync)) (tagModel w)), w).
Proof. reflexivity. Qed.

(** X6. [deleteHardTag] removes a stored record of the caller whether it
    is active or a tombstone and whatever its timestamps are: it returns
    [true], the collection loses exactly that record, and afterwards
    neither [getTag] nor [getAllCurrentTags] nor [getAllTagsSync] returns a
    document with its identifier. *)
Theorem deleteHardTag_removes (userId tagId : string) (w : World) (i : nat)
    (d : Doc) :
  unique_ids (tagModel w) → tagModel w !! i = Some d →
  d !! "_id" = Some (VStr tagId) → d !! "userId" = Some (VStr userId) →
  let out := deleteHardTag userId tagId w in
  out = (true, setTags (delete i (tagModel w)) w)
  ∧ (getTag userId tagId out.2).1 = inr false
  ∧ (∀ tags, (getAllCurrentTags userId out.2).1 = inl tags →
       ∀ e : Doc, e ∈ tags → e !! "_id" ≠ Some (VStr tagId))
  ∧ (∀ tags, (getAllTagsSync userId out.2).1 = inl tags →
       ∀ e : Doc, e ∈ tags → e !! "_id" ≠ Some (VStr tagId)).
Proof.
  intros Hu Hi Hid Huser out. subst out.
  assert (deleteHardTag userId tagId w
          = (true, setTags (delete i (tagModel w)) w)) as ->.
  { rewrite deleteHardTag_unfold.
    destruct (deleteOne_cases (deleteHardTag_filter userId tagId)
                (tagModel w)) as [[Hno _]|(j & e & Hj & He & _ & ->)].
    - assert (matches (deleteHardTag_filter userId tagId) d = true) as Hd
        by by apply deleteHardTag_filter_iff.
      rewrite Hno in Hd; [done|apply list_elem_of_lookup; eauto].
    - apply deleteHardTag_filter_iff in He as [He _].
      assert (j = i) as ->
        by by eapply (unique_ids_lookup (tagModel w) j i e d);
              rewrite ?He, ?Hid.
      done. }
  cbn [fst snd].
  assert (∀ e : Doc, e ∈ delete i (tagModel w) →
            e !! "_id" ≠ Some (VStr tagId)) as Hgone.
  { intros e He. rewrite <- Hid. by eapply delete_forgets_id. }
  split_and!; [done| | |].
  - rewrite getTag_none; [done|]. cbn [setTags tagModel].
    intros e He (Heid & _). by apply (Hgone e He).
  - rewrite getAllCurrentTags_unfold. cbn [fst setTags tagModel].
    intros tags Heq e He. apply (inj inl) in Heq. subst tags.
    apply elem_of_find_projected in He as (e0 & -> & Hin & _).
    intros Heid%project_lookup_Some. by apply (Hgone e0 Hin).
  - rewrite getAllTagsSync_unfold. cbn [fst setTags tagModel].
    intros tags Heq e He. apply (inj inl) in Heq. subst tags.
    apply elem_of_find_projected in He as (e0 & -> & Hin & _).
    intros Heid%project_lookup_Some. by apply (Hgone e0 Hin).
Qed.

(** X7. [deleteHardTag] is scoped by identifier and owner: it returns
    [false], leaving the world as it is, exactly when no stored record has
    both; when it returns [true], the one record it removed has this
    identifier and belongs to the caller, so another user's record is
    never removed. *)
Theorem deleteHardTag_scoped (userId tagId : string) (w : World) :
  let out := deleteHardTag userId tagId w in
  (out.1 = false
   ↔ ∀ d : Doc, d ∈ tagModel w →
       ¬ (d !! "_id" = Some (VStr tagId) ∧
          d !! "userId" = Some (VStr userId)))
  ∧ (out.1 = false → out.2 = w)
  ∧ (out.1 = true →
     ∃ i (d : Doc), tagModel w !! i = Some d
       ∧ d !! "_id" = Some (VStr tagId)
       ∧ d !! "userId" = Some (VStr userId)
       ∧ tagModel out.2 = delete i (tagModel w)).
Proof.
  intros out. subst out. rewrite deleteHardTag_unfold.
  destruct (deleteOne_cases (deleteHardTag_filter userId tagId) (tagModel w))
    as [[Hno ->]|(i & d & Hi & Hd & _ & ->)]; cbn.
  - split_and!; [|by rewrite setTags_same|done].
    split; [|done]. intros _ d Hin Hboth.
    apply deleteHardTag_filter_iff in Hboth. by rewrite (Hno d Hin) in Hboth.
  - apply deleteHardTag_filter_iff in Hd as [Hid Huser]. split_and!.
    + split; [done|]. intros Hnone. destruct (Hnone d); [|done].
      apply list_elem_of_lookup. eauto.
    + done.
    + intros _. by exists i, d.
Qed.

Lemma deleteHardTags_filter_iff userId (d : Doc) :
  matches (deleteHardTags_filter userId) d = true
  ↔ d !! "userId" = Some (VStr userId).
Proof.
  unfold deleteHardTags_filter. cbn [matches forallb].
  rewrite !andb_true_iff. rewrite !cond_eq_iff by done. tauto.
Qed.

Lemma deleteHardTags_unfold userId w :
  deleteHardTags userId w
  = (number_truthy
       (length (List.filter (matches (deleteHardTags_filter userId))
                            (tagModel w))),
     setTags (List.filter
                (fun d => negb (matches (deleteHardTags_filter userId) d))
                (tagModel w)) w).
Proof.
  unfold deleteHardTags, bind, ret, onTags, deleteMany, result_truthy. cbn.
  by destruct (number_truthy _).
Qed.

Lemma elem_of_filter (p : Doc → bool) (coll : list Doc) (e : Doc) :
  e ∈ List.filter p coll ↔ e ∈ coll ∧ p e = true.
Proof. by rewrite list_elem_of_In, filter_In, <- list_elem_of_In. Qed.

Lemma filter_keeps_all (p : Doc → bool) (coll : list Doc) :
  (∀ e, e ∈ coll → p e = true) → List.filter p coll = coll.
Proof.
  induction coll as [|x rest IH]; intros Hall; [done|]. cbn.
  rewrite (Hall x) by left. f_equal. apply IH. intros e He. apply Hall.
  by right.
Qed.

Lemma filter_drops_all (p : Doc → bool) (coll : list Doc) :
  (∀ e, e ∈ coll → p e = false) → List.filter p coll = [].
Proof.
  induction coll as [|x rest IH]; intros Hall; [done|]. cbn.
  rewrite (Hall x) by left. apply IH. intros e He. apply Hall. by right.
Qed.

Lemma filter_sublist (p : Doc → bool) (coll : list Doc) :
  List.filter p coll `sublist_of` coll.
Proof.
  induction coll as [|x rest IH]; [done|]. cbn.
  destruct (p x); by constructor.
Qed.

(** X8. [deleteHardTags] removes every record of the user, active or
    tombstone, and no other: the records of other users stay, in their
    order.  It returns [true] exactly when the user had a record, and on
    [false] the world is as it was.  Afterwards the sync read of the user
    is empty. *)
Theorem deleteHardTags_removes_all (userId : string) (w : World) :
  let out := deleteHardTags userId w in
  (∀ e : Doc, e ∈ tagModel out.2
     ↔ e ∈ tagModel w ∧ e !! "userId" ≠ Some (VStr userId))
  ∧ tagModel out.2 `sublist_of` tagModel w
  ∧ (out.1 = true
     ↔ ∃ e : Doc, e ∈ tagModel w ∧ e !! "userId" = Some (VStr userId))
  ∧ (out.1 = false → out.2 = w)
  ∧ (getAllTagsSync userId out.2).1 = inl [].
Proof.
  intros out. subst out. rewrite deleteHardTags_unfold.
  cbn [fst snd setTags tagModel].
  set (q := deleteHardTags_filter userId).
  assert (∀ e : Doc,
    e ∈ List.filter (fun d => negb (matches q d)) (tagModel w)
    ↔ e ∈ tagModel w ∧ e !! "userId" ≠ Some (VStr userId)) as Hrest.
  { intros e. rewrite elem_of_filter, negb_true_iff.
    rewrite <- (deleteHardTags_filter_iff userId e). fold q.
    destruct (matches q e); intuition congruence. }
  assert (number_truthy (length (List.filter (matches q) (tagModel w))) = true
          ↔ ∃ e : Doc, e ∈ tagModel w ∧ e !! "userId" = Some (VStr userId))
    as Htrue.
  { split.
    - destruct (List.filter (matches q) (tagModel w)) as [|e l] eqn:Hf;
        [done|]. intros _. exists e.
      rewrite <- (deleteHardTags_filter_iff userId e). fold q.
      apply elem_of_filter. rewrite Hf. by left.
    - intros (e & Hin & Huser).
      apply deleteHardTags_filter_iff in Huser. fold q in Huser.
      assert (e ∈ List.filter (matches q) (tagModel w)) as He
        by by apply elem_of_filter.
      by destruct (List.filter (matches q) (tagModel w));
        [apply elem_of_nil in He|]. }
  split_and!.
  - done.
  - apply filter_sublist.
  - done.
  - intros Hfalse. rewrite filter_keeps_all; [apply setTags_same|].
    intros e He. apply negb_true_iff, not_true_is_false. intros Hm.
    apply not_true_iff_false in Hfalse. apply Hfalse, Htrue.
    exists e. split; [done|]. by apply deleteHardTags_filter_iff.
  - rewrite getAllTagsSync_unfold. cbn [fst setTags tagModel]. f_equal.
    unfold find. rewrite filter_drops_all; [done|].
    intros e [_ Hne]%Hrest. apply not_true_is_false.
    by rewrite getAllTagsSync_filter_iff.
Qed.

(** *** Invariants of the writers *)

Lemma unique_ids_sublist (c1 c2 : list Doc) :
  c1 `sublist_of` c2 → unique_ids c2 → unique_ids c1.
Proof.
  unfold unique_ids. intros Hsub Hu.
  eapply sublist_NoDup; [done|]. by apply fmap_sublist.
Qed.

Lemma updateOne_unique_ids q (fieldSet : Doc) (coll : list Doc) :
  fieldSet !! "_id" = None → unique_ids coll →
  unique_ids (updateOne q fieldSet coll).2.
Proof.
  intros Hid Hu.
  destruct (updateOne_cases q fieldSet coll)
    as [[_ ->]|(i & d & Hi & _ & _ & ->)]; [done|]. cbn [snd].
  eapply unique_ids_insert; [done|done|]. by apply lookup_union_r.
Qed.

Lemma deleteOne_sublist q (coll : list Doc) :
  (deleteOne q coll).2 `sublist_of` coll.
Proof.
  destruct (deleteOne_cases q coll) as [[_ ->]|(i & d & _ & _ & _ & ->)];
    [done|apply sublist_delete].
Qed.

(** X9. Uniqueness of [_id] in the owned collection is kept by
    [updateTagDetails], [deleteSoftTag], [deleteHardTag] and
    [deleteHardTags] with any arguments, and by [updateTag] whenever
    [updates] does not set [_id]. *)
Theorem writers_keep_unique_ids (w : World) :
  unique_ids (tagModel w) →
  (∀ userId tagId (updates : Doc) updateTs, updates !! "_id" = None →
     unique_ids (tagModel (updateTag userId tagId updates updateTs w).2))
  ∧ (∀ userId tagId tag encKey encConfig updateTs schemaVersion,
       unique_ids
         (tagModel (updateTagDetails userId tagId tag encKey encConfig
                      updateTs schemaVersion w).2))
  ∧ (∀ userId tagId deleteTs,
       unique_ids (tagModel (deleteSoftTag userId tagId deleteTs w).2))
  ∧ (∀ userId tagId,
       unique_ids (tagModel (deleteHardTag userId tagId w).2))
  ∧ (∀ userId, unique_ids (tagModel (deleteHardTags userId w).2)).
Proof.
  intros Hu.
  assert (∀ userId tagId (updates : Doc) updateTs, updates !! "_id" = None →
    unique_ids (tagModel (updateTag userId tagId updates updateTs w).2))
    as Hupd.
  { intros userId tagId updates updateTs Hid.
    destruct (updateTag_tags userId tagId updates updateTs w) as [_ ->].
    apply updateOne_unique_ids; [|done]. by rewrite lookup_insert_ne. }
  split_and!.
  - done.
  - intros. rewrite updateTagDetails_eq. by apply Hupd.
  - intros. rewrite deleteSoftTag_unfold. cbn [snd setTags tagModel].
    by apply updateOne_unique_ids.
  - intros. rewrite deleteHardTag_unfold. cbn [snd setTags tagModel].
    eapply unique_ids_sublist; [apply deleteOne_sublist|done].
  - intros. rewrite deleteHardTags_unfold. cbn [snd setTags tagModel].
    eapply unique_ids_sublist; [apply filter_sublist|done].
Qed.

Lemma addTagsFromJson_loop_shared (json : list Doc) success w :
  tagSharedModel (addTagsFromJson_loop success json w).2 = tagSharedModel w.
Proof.
  revert success w. induction json as [|tag rest IH]; intros success w;
    [done|].
  cbn [addTagsFromJson_loop]. unfold bind, dateNow, onTags, create, ret.
  cbn [tagModel].
  destruct (create_accepts _ _); cbn [setTags];
    destruct (negb _); cbn [snd]; try done; by rewrite IH.
Qed.

(** X10. The two collections are separate name spaces: no method that
    writes owned tags changes the shared collection, and no method that
    writes shared tags changes the owned collection. *)
Theorem collections_are_isolated (w : World) :
  (∀ dId lId userId tag encKey encConfig createTs schemaVersion,
     tagSharedModel (addTag dId lId userId tag encKey encConfig createTs
                       schemaVersion w).2 = tagSharedModel w)
  ∧ (∀ json, tagSharedModel (addTagsFromJson json w).2 = tagSharedModel w)
  ∧ (∀ userId tagId updates updateTs,
       tagSharedModel (updateTag userId tagId updates updateTs w).2
       = tagSharedModel w)
  ∧ (∀ userId tagId tag encKey encConfig updateTs schemaVersion,
       tagSharedModel (updateTagDetails userId tagId tag encKey encConfig
                         updateTs schemaVersion w).2 = tagSharedModel w)
  ∧ (∀ userId tagId deleteTs,
       tagSharedModel (deleteSoftTag userId tagId deleteTs w).2
       = tagSharedModel w)
  ∧ (∀ userId tagId,
       tagSharedModel (deleteHardTag userId tagId w).2 = tagSharedModel w)
  ∧ (∀ userId,
       tagSharedModel (deleteHardTags userId w).2 = tagSharedModel w)
  ∧ (∀ dId lId userId tag encKey encConfig createTs schemaVersion,
       tagModel (addTagShared dId lId userId tag encKey encConfig createTs
                   schemaVersion w).2 = tagModel w)
  ∧ (∀ userId tagId updates updateTs,
       tagModel (updateTagShared userId tagId updates updateTs w).2
       = tagModel w)
  ∧ (∀ userId tagId tag encKey encConfig updateTs schemaVersion,
       tagModel (updateTagDetailsShared userId tagId tag encKey encConfig
                   updateTs schemaVersion w).2 = tagModel w)
  ∧ (∀ userId tagId,
       tagModel (deleteHardTagShared userId tagId w).2 = tagModel w).
Proof.
  assert (∀ userId tagId updates updateTs,
    tagSharedModel (updateTag userId tagId updates updateTs w).2
    = tagSharedModel w) as Hupd.
  { intros. unfold updateTag, bind, orDefault, ret, onTags, dateNow.
    destruct updateTs; cbn [tagModel];
      destruct (updateOne _ _ _) as [r c]; cbn;
      by destruct (acknowledged r && _). }
  assert (∀ userId tagId updates updateTs,
    tagModel (updateTagShared userId tagId updates updateTs w).2
    = tagModel w) as HupdS.
  { intros. unfold updateTagShared, bind, orDefault, ret, onTagsShared,
      dateNow.
    destruct updateTs; cbn [tagSharedModel];
      destruct (updateOne _ _ _) as [r c]; cbn;
      by destruct (acknowledged r && _). }
  split_and!.
  - intros. unfold addTag, bind, ret, onTags, create.
    by destruct (create_accepts _ _).
  - intros. apply addTagsFromJson_loop_shared.
  - done.
  - intros. rewrite updateTagDetails_eq. apply Hupd.
  - intros. by rewrite deleteSoftTag_unfold.
  - intros. by rewrite deleteHardTag_unfold.
  - intros. by rewrite deleteHardTags_unfold.
  - intros. unfold addTagShared, bind, ret, onTagsShared, create.
    by destruct (create_accepts _ _).
  - done.
  - intros. unfold updateTagDetailsShared, bind, ret.
    specialize (HupdS userId tagId
                  (obj [("tag", Some (VStr tag));
                        ("encKey", Some (VStr encKey));
                        ("encConfig", Some (VStr encConfig));
                        ("schemaVersion", Some (VNum schemaVersion))])
                  (Some updateTs)).
    by destruct (updateTagShared _ _ _ _ w) as [[] w'].
  - intros. unfold deleteHardTagShared, bind, ret, onTagsShared,
      result_truthy.
    destruct (deleteOne _ _) as [r c]. cbn.
    by destruct (number_truthy _).
Qed.

(** *** What the read paths expose *)

Lemma project_keys fields (d : Doc) k v :
  project fields d !! k = Some v → k = "_id" ∨ k ∈ fields.
Proof. unfold project. by intros [_ ?]%map_lookup_filter_Some. Qed.

Lemma findOne_projected q fields (coll : list Doc) (e : Doc) :
  findOne q (Some fields) coll = Some e →
  ∃ e0, e = project fields e0 ∧ e0 ∈ coll ∧ matches q e0 = true.
Proof.
  unfold findOne. destruct (List.find _ _) as [e0|] eqn:Hf; [|done].
  intros [= <-]. exists e0. split; [done|]. by apply find_Some_matches.
Qed.

Lemma getTagShared_unfold userId tagId w :
  getTagShared userId tagId w
  = (match findOne (getTagShared_filter userId tagId)
             (Some (String.words apiFields)) (tagSharedModel w) with
     | Some d => inl d
     | None => inr false
     end, w).
Proof.
  unfold getTagShared, bind, ret, readTagsShared. by destruct (findOne _ _ _).
Qed.

Lemma getTag_unfold_findOne userId tagId w :
  getTag userId tagId w
  = (match findOne (getTag_filter userId tagId)
             (Some (String.words apiFields)) (tagModel w) with
     | Some d => inl d
     | None => inr false
     end, w).
Proof.
  unfold getTag, bind, ret, readTags. by destruct (findOne _ _ _).
Qed.

Lemma getAllTagsSharedByOthers_unfold ids w :
  getAllTagsSharedByOthers ids w
  = (inl (find (getAllTagsSharedByOthers_filter ids)
               (Some (String.words apiFields)) (tagSharedModel w)), w).
Proof. reflexivity. Qed.

Lemma getTagsSharedByUser_unfold userId ids w :
  getTagsSharedByUser userId ids w
  = (inl (find (getTagsSharedByUser_filter userId ids)
               (Some (String.words apiFields)) (tagSharedModel w)), w).
Proof. reflexivity. Qed.

Lemma getAllTagsSharedSync_unfold ids w :
  getAllTagsSharedSync ids w
  = (inl (find (getAllTagsSharedSync_filter ids)
               (Some (String.words apiFieldsSyncShared)) (tagSharedModel w)),
     w).
Proof. reflexivity. Qed.

Lemma apiFields_key fields (d : Doc) k v :
  fields = String.words apiFields →
  project fields d !! k = Some v → k ∈ String.words apiFields.
Proof.
  intros -> [->|Hk]%project_keys; [|done]. rewrite apiFields_words. in_list.
Qed.

(** X11. The reads that project on [apiFields] ([getTag], [getTagShared],
    [getAllCurrentTags], [getAllTagsSharedByOthers], [getTagsSharedByUser])
    never hand out a field that [apiFields] does not name, whatever the
    stored documents contain. *)
Theorem reads_expose_apiFields_only (w : World) (e : Doc) (k : string)
    (v : Value) :
  e !! k = Some v →
  (∀ userId tagId, (getTag userId tagId w).1 = inl e →
     k ∈ String.words apiFields)
  ∧ (∀ userId tagId, (getTagShared userId tagId w).1 = inl e →
       k ∈ String.words apiFields)
  ∧ (∀ userId tags, (getAllCurrentTags userId w).1 = inl tags → e ∈ tags →
       k ∈ String.words apiFields)
  ∧ (∀ ids tags, (getAllTagsSharedByOthers ids w).1 = inl tags → e ∈ tags →
       k ∈ String.words apiFields)
  ∧ (∀ userId ids tags, (getTagsSharedByUser userId ids w).1 = inl tags →
       e ∈ tags → k ∈ String.words apiFields).
Proof.
  intros Hk. split_and!.
  - intros userId tagId. rewrite getTag_unfold_findOne. cbn [fst].
    destruct (findOne _ _ _) as [e'|] eqn:Hf; [|done].
    intros Heq. apply (inj inl) in Heq. subst e'.
    apply findOne_projected in Hf as (e0 & -> & _).
    by eapply apiFields_key.
  - intros userId tagId. rewrite getTagShared_unfold. cbn [fst].
    destruct (findOne _ _ _) as [e'|] eqn:Hf; [|done].
    intros Heq. apply (inj inl) in Heq. subst e'.
    apply findOne_projected in Hf as (e0 & -> & _).
    by eapply apiFields_key.
  - intros userId tags. rewrite getAllCurrentTags_unfold. cbn [fst].
    intros Heq He. apply (inj inl) in Heq. subst tags.
    apply elem_of_find_projected in He as (e0 & -> & _).
    by eapply apiFields_key.
  - intros ids tags. rewrite getAllTagsSharedByOthers_unfold. cbn [fst].
    intros Heq He. apply (inj inl) in Heq. subst tags.
    apply elem_of_find_projected in He as (e0 & -> & _).
    by eapply apiFields_key.
  - intros userId ids tags. rewrite getTagsSharedByUser_unfold. cbn [fst].
    intros Heq He. apply (inj inl) in Heq. subst tags.
    apply elem_of_find_projected in He as (e0 & -> & _).
    by eapply apiFields_key.
Qed.

(** *** Shared tags by identifier *)

Lemma QIn_iff k (ids : list string) (d : Doc) :
  matches (QIn k (VStr <$> ids)) d = true
  ↔ ∃ id, id ∈ ids ∧ d !! k = Some (VStr id).
Proof.
  unfold QIn. cbn [matches]. rewrite existsb_exists. split.
  - intros (q & Hin & Hq). apply list_elem_of_In in Hin.
    apply list_elem_of_fmap in Hin as (v & -> & Hv).
    apply list_elem_of_fmap in Hv as (id & -> & Hid).
    exists id. split; [done|]. cbn [matches] in Hq.
    by apply cond_eq_iff in Hq.
  - intros (id & Hid & Hk). exists (QField k (CEq (VStr id))). split.
    + apply list_elem_of_In. apply list_elem_of_fmap. exists (VStr id).
      split; [done|]. apply list_elem_of_fmap. by exists id.
    + cbn [matches]. by apply cond_eq_iff.
Qed.

Lemma getAllTagsSharedByOthers_filter_iff ids (d : Doc) :
  matches (getAllTagsSharedByOthers_filter ids) d = true
  ↔ (∃ id, id ∈ ids ∧ d !! "_id" = Some (VStr id))
    ∧ d !! "deleted" = Some (VBool false).
Proof.
  unfold getAllTagsSharedByOthers_filter. cbn [matches forallb].
  rewrite !andb_true_iff, QIn_iff. cbn [matches].
  rewrite !cond_eq_iff by done. tauto.
Qed.

Lemma getTagsSharedByUser_filter_iff userId ids (d : Doc) :
  matches (getTagsSharedByUser_filter userId ids) d = true
  ↔ (∃ id, id ∈ ids ∧ d !! "_id" = Some (VStr id))
    ∧ d !! "userId" = Some (VStr userId)
    ∧ d !! "archived" = Some (VBool false)
    ∧ d !! "recycled" = Some (VBool false)
    ∧ d !! "deleted" = Some (VBool false).
Proof.
  unfold getTagsSharedByUser_filter. cbn [matches forallb].
  rewrite !andb_true_iff, QIn_iff. cbn [matches].
  rewrite !cond_eq_iff by done. tauto.
Qed.

Lemma getAllTagsSharedSync_filter_iff ids (d : Doc) :
  matches (getAllTagsSharedSync_filter ids) d = true
  ↔ ∃ id, id ∈ ids ∧ d !! "_id" = Some (VStr id).
Proof.
  unfold getAllTagsSharedSync_filter. cbn [matches forallb].
  rewrite !andb_true_iff, QIn_iff. tauto.
Qed.

(** X12. [getAllTagsSharedByOthers] returns, under the [apiFields]
    projection, exactly the shared documents whose [_id] is one of the
    requested identifiers and whose [deleted] is [false], whoever the
    recipient is; a soft-deleted shared tag is never returned, and an empty
    list of identifiers gives an empty result. *)
Theorem getAllTagsSharedByOthers_spec (ids : list string) (w : World) :
  ∃ tags, getAllTagsSharedByOthers ids w = (inl tags, w)
  ∧ (∀ e : Doc, e ∈ tags ↔
       ∃ e0 : Doc, e = project (String.words apiFields) e0
         ∧ e0 ∈ tagSharedModel w
         ∧ (∃ id, id ∈ ids ∧ e0 !! "_id" = Some (VStr id))
         ∧ e0 !! "deleted" = Some (VBool false))
  ∧ (∀ e : Doc, e ∈ tags → e !! "deleted" = Some (VBool false))
  ∧ (ids = [] → tags = []).
Proof.
  eexists. split; [apply getAllTagsSharedByOthers_unfold|].
  assert (∀ e : Doc,
    e ∈ find (getAllTagsSharedByOthers_filter ids)
          (Some (String.words apiFields)) (tagSharedModel w)
    ↔ ∃ e0 : Doc, e = project (String.words apiFields) e0
        ∧ e0 ∈ tagSharedModel w
        ∧ (∃ id, id ∈ ids ∧ e0 !! "_id" = Some (VStr id))
        ∧ e0 !! "deleted" = Some (VBool false)) as Hchar.
  { intros e. rewrite elem_of_find_projected.
    split; intros (e0 & -> & Hin & Hm); exists e0;
      (split; [done|]); (split; [done|]);
      by apply getAllTagsSharedByOthers_filter_iff. }
  split_and!.
  - done.
  - intros e (e0 & -> & _ & _ & Hdel)%Hchar.
    rewrite project_lookup_in; [done|]. right.
    rewrite apiFields_words. in_list.
  - intros ->. unfold find. rewrite filter_drops_all; [done|].
    intros e _. apply not_true_is_false.
    intros [(id & Hid & _) _]%getAllTagsSharedByOthers_filter_iff.
    by apply elem_of_nil in Hid.
Qed.

(** X13. [getTagsSharedByUser] returns only what
    [getAllTagsSharedByOthers] returns for the same identifiers, and of
    that only the documents whose [userId] is the given user and whose
    stored [archived] and [recycled] are both [false]. *)
Theorem getTagsSharedByUser_refines (userId : string) (ids : list string)
    (w : World) :
  ∃ tags all,
    getTagsSharedByUser userId ids w = (inl tags, w)
    ∧ getAllTagsSharedByOthers ids w = (inl all, w)
    ∧ (∀ e : Doc, e ∈ tags → e ∈ all)
    ∧ (∀ e : Doc, e ∈ tags → e !! "userId" = Some (VStr userId))
    ∧ (∀ e : Doc, e ∈ tags ↔
         ∃ e0 : Doc, e = project (String.words apiFields) e0
           ∧ e0 ∈ tagSharedModel w
           ∧ (∃ id, id ∈ ids ∧ e0 !! "_id" = Some (VStr id))
           ∧ e0 !! "userId" = Some (VStr userId)
           ∧ e0 !! "archived" = Some (VBool false)
           ∧ e0 !! "recycled" = Some (VBool false)
           ∧ e0 !! "deleted" = Some (VBool false)).
Proof.
  eexists _, _. split; [apply getTagsSharedByUser_unfold|].
  split; [apply getAllTagsSharedByOthers_unfold|].
  assert (∀ e : Doc,
    e ∈ find (getTagsSharedByUser_filter userId ids)
          (Some (String.words apiFields)) (tagSharedModel w)
    ↔ ∃ e0 : Doc, e = project (String.words apiFields) e0
        ∧ e0 ∈ tagSharedModel w
        ∧ (∃ id, id ∈ ids ∧ e0 !! "_id" = Some (VStr id))
        ∧ e0 !! "userId" = Some (VStr userId)
        ∧ e0 !! "archived" = Some (VBool false)
        ∧ e0 !! "recycled" = Some (VBool false)
        ∧ e0 !! "deleted" = Some (VBool false)) as Hchar.
  { intros e. rewrite elem_of_find_projected.
    split; intros (e0 & -> & Hin & Hm); exists e0;
      (split; [done|]); (split; [done|]);
      by apply getTagsSharedByUser_filter_iff. }
  split_and!.
  - intros e (e0 & -> & Hin & Hid & _ & _ & _ & Hdel)%Hchar.
    apply elem_of_find_projected. exists e0. split_and!; [done|done|].
    by apply getAllTagsSharedByOthers_filter_iff.
  - intros e (e0 & -> & _ & _ & Huser & _)%Hchar.
    rewrite project_lookup_in; [done|]. right.
    rewrite apiFields_words. in_list.
  - done.
Qed.

(** X14. [getAllTagsSharedSync] returns, under the shared sync projection,
    exactly the shared documents whose [_id] is one of the requested
    identifiers: soft-deleted ones are included, and an empty list of
    identifiers gives an empty result. *)
Theorem getAllTagsSharedSync_spec (tagIds : list string) (w : World) :
  ∃ tags, getAllTagsSharedSync tagIds w = (inl tags, w)
  ∧ (∀ e : Doc, e ∈ tags ↔
       ∃ e0 : Doc, e = project (String.words apiFieldsSyncShared) e0
         ∧ e0 ∈ tagSharedModel w
         ∧ ∃ id, id ∈ tagIds ∧ e0 !! "_id" = Some (VStr id))
  ∧ (∀ (e0 : Doc) id, e0 ∈ tagSharedModel w → id ∈ tagIds →
       e0 !! "_id" = Some (VStr id) → e0 !! "deleted" = Some (VBool true) →
       project (String.words apiFieldsSyncShared) e0 ∈ tags)
  ∧ (tagIds = [] → tags = []).
Proof.
  eexists. split; [apply getAllTagsSharedSync_unfold|].
  assert (∀ e : Doc,
    e ∈ find (getAllTagsSharedSync_filter tagIds)
          (Some (String.words apiFieldsSyncShared)) (tagSharedModel w)
    ↔ ∃ e0 : Doc, e = project (String.words apiFieldsSyncShared) e0
        ∧ e0 ∈ tagSharedModel w
        ∧ ∃ id, id ∈ tagIds ∧ e0 !! "_id" = Some (VStr id)) as Hchar.
  { intros e. rewrite elem_of_find_projected.
    split; intros (e0 & -> & Hin & Hm); exists e0;
      (split; [done|]); (split; [done|]);
      by apply getAllTagsSharedSync_filter_iff. }
  split_and!.
  - done.
  - intros e0 id Hin Hid Heq _. apply Hchar. exists e0.
    split_and!; [done|done|by exists id].
  - intros ->. unfold find. rewrite filter_drops_all; [done|].
    intros e _. apply not_true_is_false.
    intros (id & Hid & _)%getAllTagsSharedSync_filter_iff.
    by apply elem_of_nil in Hid.
Qed.

(** *** More on bulk import *)

Lemma addTagsFromJson_loop_success_irrelevant (json : list Doc) s s' w :
  truthy s = true → truthy s' = true →
  (addTagsFromJson_loop s json w).2 = (addTagsFromJson_loop s' json w).2
  ∧ truthy (addTagsFromJson_loop s json w).1
    = truthy (addTagsFromJson_loop s' json w).1
  ∧ (json ≠ [] →
     addTagsFromJson_loop s json w = addTagsFromJson_loop s' json w).
Proof.
  intros Hs Hs'. destruct json as [|tag rest].
  - cbn. by rewrite Hs, Hs'.
  - assert (addTagsFromJson_loop s (tag :: rest) w
            = addTagsFromJson_loop s' (tag :: rest) w) as ->; [|done].
    cbn [addTagsFromJson_loop]. unfold bind, and_assign.
    destruct (dateNow w) as [now w1].
    destruct (onTags _ w1) as [doc w2]. by rewrite Hs, Hs'.
Qed.

Lemma addTagsFromJson_loop_app (a b : list Doc) :
  ∀ s w, truthy s = true →
  addTagsFromJson_loop s (a ++ b) w
  = (let out := addTagsFromJson_loop s a w in
     if truthy out.1 then addTagsFromJson_loop out.1 b out.2 else out).
Proof.
  induction a as [|tag rest IH]; intros s w Hs.
  - cbn. by rewrite Hs.
  - cbn [app addTagsFromJson_loop]. unfold bind, and_assign. rewrite Hs.
    destruct (dateNow w) as [now w1].
    destruct (onTags _ w1) as [[doc|] w2]; cbn [truthy negb fst snd].
    + by apply IH.
    + done.
Qed.

(** X15. Importing a batch in two parts: when the first part is inserted
    completely, importing [a ++ b] leaves the same world as importing [a]
    and then [b], with an equally truthy result; when the first part
    fails, importing [a ++ b] is importing [a], and nothing of [b] is
    attempted. *)
Theorem addTagsFromJson_app (a b : list Doc) (w : World) :
  let first := addTagsFromJson a w in
  (truthy first.1 = true →
     (addTagsFromJson (a ++ b) w).2 = (addTagsFromJson b first.2).2
     ∧ truthy (addTagsFromJson (a ++ b) w).1
       = truthy (addTagsFromJson b first.2).1)
  ∧ (truthy first.1 = false → addTagsFromJson (a ++ b) w = first).
Proof.
  intros first. subst first. unfold addTagsFromJson.
  rewrite addTagsFromJson_loop_app by done. cbv zeta. split.
  - intros Ht. rewrite Ht.
    destruct (addTagsFromJson_loop_success_irrelevant b
                (addTagsFromJson_loop (SBool true) a w).1 (SBool true)
                (addTagsFromJson_loop (SBool true) a w).2 Ht eq_refl)
      as (Hw & Hr & _).
    done.
  - intros Hf. by rewrite Hf.
Qed.

Lemma addTagsFromJson_fields_projection (tag : Doc) now :
  addTagsFromJson_fields tag now
  = <["updateTs" := VNum now]> (project (String.words apiFields) tag).
Proof.
  apply map_eq. intros k.
  destruct (decide (k = "updateTs")) as [->|Hts].
  { by rewrite addTagsFromJson_fields_updateTs, lookup_insert_eq. }
  rewrite lookup_insert_ne by done.
  destruct (decide (k ∈ ["_id"; "dId"; "lId"; "userId"; "deleted"; "tag";
                         "encKey"; "encConfig"; "createTs"; "deleteTs";
                         "schemaVersion"])) as [Hin|Hout].
  - rewrite addTagsFromJson_fields_copied by done.
    symmetry. apply project_lookup_in. right. rewrite apiFields_words.
    repeat (apply elem_of_cons in Hin as [->|Hin]; [in_list|]).
    by apply elem_of_nil in Hin.
  - rewrite !not_elem_of_cons in Hout.
    destruct Hout as (?&?&?&?&?&?&?&?&?&?&?&_).
    transitivity (@None Value).
    + unfold addTagsFromJson_fields.
      rewrite !obj_lookup_skip by done. done.
    + symmetry. unfold project. apply map_lookup_filter_None_2. right.
      intros v _ Hor.
      change (k = "_id" ∨ k ∈ String.words apiFields) in Hor.
      destruct Hor as [Hk|Hk]; [done|].
      rewrite apiFields_words in Hk.
      repeat (apply elem_of_cons in Hk as [->|Hk]; [done|]).
      by apply elem_of_nil in Hk.
Qed.


(** *** The remaining shared methods *)

(** X18. [addTagShared], [getTagShared] and [deleteHardTagShared] are
    [addTag], [getTag] and [deleteHardTag] run with the two collections
    exchanged: same field set, same filters, same result rule. *)
Theorem shared_methods_mirror_owned (dId lId userId tagId tag encKey
    encConfig : string) (createTs schemaVersion : Z) (w : World) :
  addTagShared dId lId userId tag encKey encConfig createTs schemaVersion w
  = onOtherCollection
      (addTag dId lId userId tag encKey encConfig createTs schemaVersion) w
  ∧ getTagShared userId tagId w
    = onOtherCollection (getTag userId tagId) w
  ∧ deleteHardTagShared userId tagId w
    = onOtherCollection (deleteHardTag userId tagId) w.
Proof.
  destruct w as [tags shared reads]. split_and!.
  - unfold addTagShared, addTag, onOtherCollection, swapModels, bind, ret,
      onTags, onTagsShared, create, setTags, setTagsShared.
    cbn [tagModel tagSharedModel clockReads].
    by destruct (create_accepts shared _).
  - unfold getTagShared, getTag, onOtherCollection, swapModels, bind, ret,
      readTags, readTagsShared.
    cbn [tagModel tagSharedModel clockReads].
    change (getTagShared_filter userId tagId)
      with (getTag_filter userId tagId).
    by destruct (findOne _ _ shared).
  - unfold deleteHardTagShared, deleteHardTag, onOtherCollection, swapModels,
      bind, ret, onTags, onTagsShared, setTags, setTagsShared, result_truthy.
    cbn [tagModel tagSharedModel clockReads].
    change (deleteHardTagShared_filter userId tagId)
      with (deleteHardTag_filter userId tagId).
    destruct (deleteOne _ shared) as [r c].
    cbn [tagModel tagSharedModel clockReads andb].
    by destruct (number_truthy _).
Qed.

(** *** Backup and restore *)

(** X19. Restoring a user from a backup: take [getAllTagsForBackup], wipe
    the user with [deleteHardTags], and import the backup with
    [addTagsFromJson] into a store that accepts every insert.  The import
    succeeds; the records of other users are untouched; every active
    record of the user is stored again with all its [apiFields] fields
    except [updateTs], which is the clock reading of its insert; and the
    user's tombstones are gone. *)
Theorem backup_then_restore (userId : string) (w : World) :
  (∀ coll d, create_accepts coll d = true) →
  ∃ backup,
    (getAllTagsForBackup userId w).1 = inl backup
    ∧ let out := addTagsFromJson backup (deleteHardTags userId w).2 in
      truthy out.1 = true
      ∧ (∀ e : Doc, e ∈ tagModel out.2 ↔
           (e ∈ tagModel w ∧ e !! "userId" ≠ Some (VStr userId))
           ∨ ∃ k (d : Doc), backup !! k = Some d ∧
               e = <["updateTs" := VNum (Date_now (clockReads w + k))]>
                     (project (String.words apiFields) d))
      ∧ (∀ d : Doc, d ∈ tagModel w → d !! "userId" = Some (VStr userId) →
           d !! "deleted" = Some (VBool false) →
           ∃ e : Doc, e ∈ tagModel out.2 ∧
             ∀ k, k ∈ String.words apiFields → k ≠ "updateTs" →
               e !! k = d !! k)
      ∧ (∀ e : Doc, e ∈ tagModel out.2 →
           e !! "userId" = Some (VStr userId) →
           e !! "deleted" = Some (VBool false)).
Proof.
  intros Hacc.
  exists (List.filter (matches (getAllTagsForBackup_filter userId))
            (tagModel w)).
  split; [reflexivity|]. cbv zeta.
  set (backup := List.filter _ _).
  assert (∀ d : Doc, d ∈ backup ↔
            d ∈ tagModel w ∧ d !! "userId" = Some (VStr userId)
            ∧ d !! "deleted" = Some (VBool false)) as Hbackup.
  { intros d. unfold backup. rewrite elem_of_filter.
    unfold getAllTagsForBackup_filter.
    by rewrite (user_deleted_filter_iff userId false d). }
  rewrite deleteHardTags_unfold. cbn [snd].
  set (w1 := setTags _ w). unfold addTagsFromJson.
  destruct (addTagsFromJson_loop_spec backup (SBool true) w1 eq_refl)
    as (n & Hn & Htags & _ & _ & Hall & Hstop).
  assert (n = length backup) as ->.
  { destruct (decide (n = length backup)) as [|Hne]; [done|].
    destruct Hstop as (_ & _ & tag & _ & Hrej); [lia|].
    by rewrite Hacc in Hrej. }
  destruct (Hall eq_refl) as [Htruthy _]. clear Hall Hstop.
  rewrite firstn_all in Htags.
  assert (∀ e : Doc,
    e ∈ tagModel (addTagsFromJson_loop (SBool true) backup w1).2 ↔
      (e ∈ tagModel w ∧ e !! "userId" ≠ Some (VStr userId))
      ∨ ∃ k (d : Doc), backup !! k = Some d ∧
          e = <["updateTs" := VNum (Date_now (clockReads w + k))]>
                (project (String.words apiFields) d)) as Hchar.
  { intros e. rewrite Htags, elem_of_app. subst w1.
    cbn [setTags tagModel clockReads].
    assert (e ∈ List.filter
                  (fun d => negb (matches (deleteHardTags_filter userId) d))
                  (tagModel w)
            ↔ e ∈ tagModel w ∧ e !! "userId" ≠ Some (VStr userId)) as Hleft.
    { rewrite elem_of_filter, negb_true_iff.
      rewrite <- (deleteHardTags_filter_iff userId e).
      destruct (matches _ e); intuition congruence. }
    assert (e ∈ stamped (clockReads w) backup
            ↔ ∃ k (d : Doc), backup !! k = Some d ∧
                e = <["updateTs" := VNum (Date_now (clockReads w + k))]>
                      (project (String.words apiFields) d)) as Hright.
    { rewrite list_elem_of_lookup. split.
      + intros [k Hk]. rewrite stamped_lookup in Hk.
        destruct (backup !! k) as [d|] eqn:Hd; [|done].
        injection Hk as <-. exists k, d. split; [done|].
        apply addTagsFromJson_fields_projection.
      + intros (k & d & Hd & ->). exists k.
        rewrite stamped_lookup, Hd. cbn. f_equal.
        apply addTagsFromJson_fields_projection. }
    tauto. }
  split_and!.
  - done.
  - done.
  - intros d Hin Huser Hdel.
    assert (d ∈ backup) as [k Hk]%list_elem_of_lookup by by apply Hbackup.
    eexists. split; [apply Hchar; right; by exists k, d|].
    intros f Hf Hne. rewrite lookup_insert_ne by done.
    apply project_lookup_in. by right.
  - intros e [[_ Hother]|(k & d & Hd & ->)]%Hchar Huser; [done|].
    rewrite lookup_insert_ne by done.
    rewrite project_lookup_in by (right; rewrite apiFields_words; in_list).
    assert (d ∈ backup) as Hin by (apply list_elem_of_lookup; eauto).
    by apply Hbackup in Hin as (_ & _ & Hdel).
Qed.

End TagService.

(** ** The theorems at concrete inputs *)

Lemma sample_unique_ids : unique_ids (tagModel sample_world).
Proof.
  unfold unique_ids. apply (bool_decide_unpack _). vm_compute. exact I.
Defined.

Lemma sample_tag_owned_active : owned_active "u1" "t1" sample_tag.
Proof. by vm_compute. Defined.

Lemma rename_payload_only tag : payload_only (rename tag).
Proof.
  unfold payload_only, rename, obj. rewrite dom_insert_L, dom_empty_L.
  intros k [Hk%elem_of_singleton|Hk]%elem_of_union.
  - subst k. apply elem_of_list_to_set. unfold payload_fields. in_list.
  - by apply not_elem_of_empty in Hk.
Defined.

Lemma updateTag_timestamp_gate_witness :
  unique_ids (tagModel sample_world)
  ∧ tagModel sample_world !! 0%nat = Some sample_tag
  ∧ owned_active "u1" "t1" sample_tag
  ∧ (updateTag sample_clock "u1" "t1" (rename "home") (Some 50) sample_world
     = (false, sample_world))
  ∧ (updateTag sample_clock "u1" "t1" (rename "home") (Some 150) sample_world).1
    = true.
Proof.
  destruct (updateTag_timestamp_gate sample_clock "u1" "t1" (rename "home")
              50 sample_world 0 sample_tag)
    as [Hstale _];
    [apply sample_unique_ids|reflexivity|apply sample_tag_owned_active|].
  destruct (updateTag_timestamp_gate sample_clock "u1" "t1" (rename "home")
              150 sample_world 0 sample_tag)
    as [_ Hfresh];
    [apply sample_unique_ids|reflexivity|apply sample_tag_owned_active|].
  split_and!.
  - apply sample_unique_ids.
  - reflexivity.
  - apply sample_tag_owned_active.
  - apply (Hstale 100); [reflexivity|lia].
  - destruct Hfresh as [_ ->]; [|reflexivity].
    right; right. exists 100. split; [reflexivity|lia].
Defined.

Lemma sample_tag_gate_open : gate_open 200 sample_tag.
Proof. right; right. exists 100. split; [reflexivity|lia]. Defined.

Lemma rename_subseteq_sample : rename "work" ⊆ sample_tag.
Proof.
  apply map_subseteq_spec. intros k v. unfold rename, obj.
  rewrite lookup_insert. case_decide as Hk; [|by rewrite lookup_empty].
  subst k. by intros [= <-].
Defined.

(** C2, counterexample: a field change equal to the stored value, with a
    timestamp that opens the gate, is accepted. *)
Lemma value_equal_write_accepted :
  rename "work" ⊆ sample_tag
  ∧ sample_tag ∈ tagModel sample_world
  ∧ matches (updateTag_filter "u1" "t1" 150) sample_tag = true
  ∧ ¬ value_equal_write_rejected sample_clock "u1" "t1" (rename "work") 150
        sample_world.
Proof.
  split_and!.
  - apply rename_subseteq_sample.
  - by left.
  - reflexivity.
  - intros Hclaim.
    specialize (Hclaim sample_tag (list_elem_of_here _ _) eq_refl
                  rename_subseteq_sample).
    vm_compute in Hclaim. discriminate.
Defined.

(** C3, counterexample: when the stored [updateTs] is already above both
    candidates, both calls are rejected and the record keeps its own
    timestamp. *)
Lemma stale_race_does_not_converge :
  unique_ids (tagModel sample_world)
  ∧ tagModel sample_world !! 0%nat = Some sample_tag
  ∧ owned_active "u1" "t1" sample_tag
  ∧ payload_only (rename "a") ∧ payload_only (rename "b")
  ∧ 10 < 20
  ∧ ¬ race_converges_unconditionally sample_clock "u1" "t1"
        (rename "a") (rename "b") 10 20 sample_world 0.
Proof.
  split_and!.
  - apply sample_unique_ids.
  - reflexivity.
  - apply sample_tag_owned_active.
  - apply rename_payload_only.
  - apply rename_payload_only.
  - lia.
  - intros [Hlow _]. apply carries_updateTs in Hlow.
    vm_compute in Hlow. discriminate.
Defined.

Lemma updateTag_race_converges_witness :
  unique_ids (tagModel sample_world)
  ∧ tagModel sample_world !! 0%nat = Some sample_tag
  ∧ owned_active "u1" "t1" sample_tag
  ∧ payload_only (rename "a") ∧ payload_only (rename "b")
  ∧ 150 < 200
  ∧ gate_open 200 sample_tag
  ∧ carries (rename "b") 200 0
      (first_low (race sample_clock "u1" "t1" (rename "a") (rename "b")
                    150 200 sample_world))
  ∧ carries (rename "b") 200 0
      (first_high (race sample_clock "u1" "t1" (rename "a") (rename "b")
                     150 200 sample_world))
  ∧ first_high (race sample_clock "u1" "t1" (rename "a") (rename "b")
                  150 200 sample_world)
    = setTags (<[0%nat := updated (rename "b") 200 sample_tag]>
                 (tagModel sample_world)) sample_world.
Proof.
  assert (150 < 200) as Hlt by lia.
  pose proof (updateTag_race_converges sample_clock "u1" "t1"
                (rename "a") (rename "b") 150 200 sample_world 0 sample_tag
                sample_unique_ids eq_refl sample_tag_owned_active
                (rename_payload_only "a") (rename_payload_only "b")
                Hlt sample_tag_gate_open)
    as (Hlow & Hhigh & _ & _ & _ & _ & _ & _ & Hfinal & _).
  split_and!.
  - apply sample_unique_ids.
  - reflexivity.
  - apply sample_tag_owned_active.
  - apply rename_payload_only.
  - apply rename_payload_only.
  - exact Hlt.
  - apply sample_tag_gate_open.
  - exact Hlow.
  - exact Hhigh.
  - exact Hfinal.
Defined.

Lemma addTagsFromJson_stamps_updateTs_witness :
  [sample_record "r1" (Some "u1"); sample_record "r2" None;
   sample_record "r3" (Some "u1")] !! 0%nat
  = Some (sample_record "r1" (Some "u1"))
  ∧ (∀ j (tag_j : Doc), (j ≤ 0)%nat →
       [sample_record "r1" (Some "u1"); sample_record "r2" None;
        sample_record "r3" (Some "u1")] !! j = Some tag_j →
       sample_accepts
         (tagModel empty_world
          ++ stamped sample_clock (clockReads empty_world)
               (take j [sample_record "r1" (Some "u1");
                        sample_record "r2" None;
                        sample_record "r3" (Some "u1")]))
         (addTagsFromJson_fields tag_j
            (sample_clock (clockReads empty_world + j))) = true)
  ∧ ∃ doc : Doc,
      tagModel (addTagsFromJson sample_clock sample_accepts
                  [sample_record "r1" (Some "u1"); sample_record "r2" None;
                   sample_record "r3" (Some "u1")] empty_world).2
        !! (length (tagModel empty_world) + 0)%nat = Some doc
      ∧ doc !! "updateTs" = Some (VNum (sample_clock
                                          (clockReads empty_world + 0)))
      ∧ ∀ f v, f ∈ ["_id"; "createTs"; "deleteTs"; "deleted"] →
          sample_record "r1" (Some "u1") !! f = Some v → doc !! f = Some v.
Proof.
  assert (∀ j (tag_j : Doc), (j ≤ 0)%nat →
            [sample_record "r1" (Some "u1"); sample_record "r2" None;
             sample_record "r3" (Some "u1")] !! j = Some tag_j →
            sample_accepts
              (tagModel empty_world
               ++ stamped sample_clock (clockReads empty_world)
                    (take j [sample_record "r1" (Some "u1");
                             sample_record "r2" None;
                             sample_record "r3" (Some "u1")]))
              (addTagsFromJson_fields tag_j
                 (sample_clock (clockReads empty_world + j))) = true)
    as Hacc.
  { intros j tag_j Hj. assert (j = 0%nat) as -> by lia.
    intros Hrec. injection Hrec as <-. vm_compute. reflexivity. }
  split; [reflexivity|]. split; [exact Hacc|].
  exact (addTagsFromJson_stamps_updateTs sample_clock sample_accepts
           [sample_record "r1" (Some "u1"); sample_record "r2" None;
            sample_record "r3" (Some "u1")] empty_world 0
           (sample_record "r1" (Some "u1")) eq_refl (or_intror Hacc)).
Defined.

Lemma deleteSoftTag_ungated_witness :
  unique_ids (tagModel sample_world)
  ∧ tagModel sample_world !! 0%nat = Some sample_tag
  ∧ owned_active "u1" "t1" sample_tag
  ∧ deleteSoftTag "u1" "t1" "5" sample_world
    = (true,
       setTags (<[0%nat := tombstone "5" sample_tag]> (tagModel sample_world))
         sample_world).
Proof.
  pose proof (deleteSoftTag_ungated "u1" "t1" "5" sample_world 0 sample_tag
                sample_unique_ids eq_refl sample_tag_owned_active)
    as (Hrun & _).
  split_and!; [apply sample_unique_ids|reflexivity
              |apply sample_tag_owned_active|exact Hrun].
Defined.

Lemma tombstone_is_final_witness :
  tagModel sample_world !! 1%nat = Some sample_tombstone
  ∧ sample_tombstone !! "deleted" = Some (VBool true)
  ∧ tagModel
      (run sample_clock
         [CallUpdateTagDetails "u1" "t2" "again" "k" "c" 900 2;
          CallDeleteSoftTag "u1" "t2" "950";
          CallUpdateTag "u1" "t2" (obj [("deleted", Some (VBool false))])
            None]
         sample_world) !! 1%nat
    = Some sample_tombstone.
Proof.
  pose proof (tombstone_is_final sample_clock sample_world 1 sample_tombstone
                eq_refl eq_refl) as [Hrun _].
  split_and!; [reflexivity|reflexivity|apply Hrun].
Defined.

Lemma softDelete_then_fetch_witness :
  unique_ids (tagModel sample_world)
  ∧ tagModel sample_world !! 0%nat = Some sample_tag
  ∧ owned_active "u1" "t1" sample_tag
  ∧ ∃ tags,
      (getAllTagsSync sample_apiFieldsSync "u1"
         (deleteSoftTag "u1" "t1" "5" sample_world).2).1 = inl tags
      ∧ project (String.words sample_apiFieldsSync)
          (tombstone "5" sample_tag) ∈ tags.
Proof.
  pose proof (softDelete_then_fetch sample_apiFieldsSync "u1" "t1" "5"
                sample_world 0 sample_tag
                sample_unique_ids eq_refl sample_tag_owned_active)
    as (_ & _ & Hsync & _).
  split_and!; [apply sample_unique_ids|reflexivity
              |apply sample_tag_owned_active|exact Hsync].
Defined.

(** *** Scenarios *)

(** Create tag A with [updateTs = 100]; an update with timestamp 50 is
    rejected, one with timestamp 150 is accepted and stored. *)
Example scenario_stale_then_fresh :
  let stale := updateTagDetails sample_clock "u1" "t1" "home" "k2" "c2" 50 2
                 sample_world in
  let fresh := updateTagDetails sample_clock "u1" "t1" "home" "k2" "c2" 150 2
                 stale.2 in
  stale = (false, sample_world)
  ∧ fresh.1 = true
  ∧ (tagModel fresh.2 !! 0%nat) ≫= (.!! "updateTs") = Some (VNum 150)
  ∧ (tagModel fresh.2 !! 0%nat) ≫= (.!! "tag") = Some (VStr "home").
Proof. intros. split_and!; vm_compute; reflexivity. Qed.

(** [addTagsFromJson [r1; r2; r3]] where the store refuses [r2]: the
    result is falsy, [r1] is stored with the first clock reading as
    [updateTs], [r3] is not stored, and the clock was read twice. *)
Example scenario_partial_import :
  let out := addTagsFromJson sample_clock sample_accepts
               [sample_record "r1" (Some "u1"); sample_record "r2" None;
                sample_record "r3" (Some "u1")] empty_world in
  out.1 = SDoc None
  ∧ tagModel out.2
    = [<["updateTs" := VNum 1000]> (sample_record "r1" (Some "u1"))]
  ∧ clockReads out.2 = 2%nat.
Proof. intros. split_and!; vm_compute; reflexivity. Qed.

(** A batch that is inserted completely hands back its last document. *)
Example scenario_full_import :
  let out := addTagsFromJson sample_clock sample_accepts
               [sample_record "r1" (Some "u1"); sample_record "r3" (Some "u1")]
               empty_world in
  truthy out.1 = true
  ∧ out.1 = SDoc (Some (<["updateTs" := VNum 1001]>
                          (sample_record "r3" (Some "u1"))))
  ∧ length (tagModel out.2) = 2%nat.
Proof. intros. split_and!; vm_compute; reflexivity. Qed.

(** The backup read path leaves the tombstone out; the sync read path
    keeps it. *)
Example scenario_backup_and_sync :
  (getAllTagsForBackup "u1" sample_world).1 = inl [sample_tag]
  ∧ (getAllTagsSync sample_apiFieldsSync "u1" sample_world).1
    = inl [project (String.words sample_apiFieldsSync) sample_tag;
           project (String.words sample_apiFieldsSync) sample_tombstone].
Proof. intros. split_and!; vm_compute; reflexivity. Qed.

(** *** The further properties at concrete inputs *)

Lemma getTag_found_witness :
  unique_ids (tagModel sample_world)
  ∧ tagModel sample_world !! 0%nat = Some sample_tag
  ∧ owned_active "u1" "t1" sample_tag
  ∧ getTag "u1" "t1" sample_world
    = (inl (project (String.words apiFields) sample_tag), sample_world).
Proof.
  pose proof (getTag_found "u1" "t1" sample_world 0 sample_tag
                sample_unique_ids eq_refl sample_tag_owned_active)
    as [Hget _].
  split_and!; [apply sample_unique_ids|reflexivity
              |apply sample_tag_owned_active|exact Hget].
Defined.

Lemma sample_tag_gate_open_150 : gate_open 150 sample_tag.
Proof. right; right. exists 100. split; [reflexivity|lia]. Defined.

Lemma updateTagDetails_then_getTag_witness :
  unique_ids (tagModel sample_world)
  ∧ tagModel sample_world !! 0%nat = Some sample_tag
  ∧ owned_active "u1" "t1" sample_tag
  ∧ gate_open 150 sample_tag
  ∧ (updateTagDetails sample_clock "u1" "t1" "home" "k2" "c2" 150 2
       sample_world).1 = true.
Proof.
  pose proof (updateTagDetails_then_getTag sample_clock "u1" "t1" "home"
                "k2" "c2" 150 2 sample_world 0 sample_tag
                sample_unique_ids eq_refl sample_tag_owned_active
                sample_tag_gate_open_150) as [Hacc _].
  split_and!; [apply sample_unique_ids|reflexivity
              |apply sample_tag_owned_active|apply sample_tag_gate_open_150
              |exact Hacc].
Defined.

Lemma updateTs_never_decreases_witness :
  tagModel sample_world !! 0%nat = Some sample_tag
  ∧ ∃ d', tagModel
            (run sample_clock
               [CallUpdateTagDetails "u1" "t1" "home" "k2" "c2" 150 2;
                CallUpdateTag "u1" "t1" (rename "late") (Some 120);
                CallDeleteSoftTag "u1" "t1" "130"]
               sample_world) !! 0%nat = Some d'
          ∧ not_older sample_tag d'.
Proof.
  split; [reflexivity|].
  exact (updateTs_never_decreases sample_clock
           [CallUpdateTagDetails "u1" "t1" "home" "k2" "c2" 150 2;
            CallUpdateTag "u1" "t1" (rename "late") (Some 120);
            CallDeleteSoftTag "u1" "t1" "130"]
           sample_world 0 sample_tag eq_refl).
Defined.

Lemma accepted_write_closes_gate_witness :
  unique_ids (tagModel sample_world)
  ∧ tagModel sample_world !! 0%nat = Some sample_tag
  ∧ owned_active "u1" "t1" sample_tag
  ∧ gate_open 150 sample_tag
  ∧ payload_only (rename "home")
  ∧ 150 ≤ 150
  ∧ (updateTag sample_clock "u1" "t1" (rename "home") (Some 150)
       sample_world).1 = true.
Proof.
  assert (150 ≤ 150) as Hle by lia.
  pose proof (accepted_write_closes_gate sample_clock "u1" "t1"
                (rename "home") (rename "home") 150 150 sample_world 0
                sample_tag sample_unique_ids eq_refl sample_tag_owned_active
                sample_tag_gate_open_150 (rename_payload_only "home") Hle)
    as [Hacc _].
  split_and!; [apply sample_unique_ids|reflexivity
              |apply sample_tag_owned_active|apply sample_tag_gate_open_150
              |apply rename_payload_only|exact Hle|exact Hacc].
Defined.

Lemma deleteHardTag_removes_witness :
  unique_ids (tagModel sample_world)
  ∧ tagModel sample_world !! 1%nat = Some sample_tombstone
  ∧ sample_tombstone !! "_id" = Some (VStr "t2")
  ∧ sample_tombstone !! "userId" = Some (VStr "u1")
  ∧ deleteHardTag "u1" "t2" sample_world
    = (true, setTags (delete 1%nat (tagModel sample_world)) sample_world).
Proof.
  pose proof (deleteHardTag_removes sample_apiFieldsSync "u1" "t2"
                sample_world 1 sample_tombstone
                sample_unique_ids eq_refl eq_refl eq_refl) as [Hrun _].
  split_and!; [apply sample_unique_ids|reflexivity|reflexivity|reflexivity
              |exact Hrun].
Defined.

Lemma writers_keep_unique_ids_witness :
  unique_ids (tagModel sample_world)
  ∧ unique_ids (tagModel (deleteHardTags "u1" sample_world).2).
Proof.
  pose proof (writers_keep_unique_ids sample_clock sample_world
                sample_unique_ids) as (_ & _ & _ & _ & Hall).
  split; [apply sample_unique_ids|apply Hall].
Defined.

Lemma reads_expose_apiFields_only_witness :
  project (String.words apiFields) sample_tag !! "tag" = Some (VStr "work")
  ∧ ∀ userId tagId,
      (getTag userId tagId sample_world).1
      = inl (project (String.words apiFields) sample_tag) →
      "tag" ∈ String.words apiFields.
Proof.
  assert (project (String.words apiFields) sample_tag !! "tag"
          = Some (VStr "work")) as Hk by (vm_compute; reflexivity).
  pose proof (reads_expose_apiFields_only sample_world
                (project (String.words apiFields) sample_tag)
                "tag" (VStr "work") Hk) as [Hget _].
  split; [exact Hk|exact Hget].
Defined.


Lemma backup_then_restore_witness :
  (∀ (coll : list Doc) (d : Doc), (fun _ _ => true) coll d = true)
  ∧ ∃ backup,
      (getAllTagsForBackup "u1" sample_world).1 = inl backup
      ∧ truthy (addTagsFromJson sample_clock (fun _ _ => true) backup
                  (deleteHardTags "u1" sample_world).2).1 = true.
Proof.
  assert (∀ (coll : list Doc) (d : Doc), (fun _ _ => true) coll d = true)
    as Hacc by (intros; reflexivity).
  split; [exact Hacc|].
  destruct (backup_then_restore sample_clock (fun _ _ => true) "u1"
              sample_world Hacc) as (backup & Hb & Ht & _).
  exists backup. split; [exact Hb|exact Ht].
Defined.

(** A backup of the sample world holds the active tag only; after wiping
    the user and importing the backup, the tombstone is gone and the tag
    carries the clock reading as [updateTs]. *)
Example scenario_restore :
  let backup := [sample_tag] in
  let out := addTagsFromJson sample_clock (fun _ _ => true) backup
               (deleteHardTags "u1" sample_world).2 in
  (getAllTagsForBackup "u1" sample_world).1 = inl backup
  ∧ tagModel out.2 = [<["updateTs" := VNum 1000]> sample_tag].
Proof. intros. split_and!; vm_compute; reflexivity. Qed.

(** Hard delete of another user's tag, and of an unknown tag, changes
    nothing. *)
Example scenario_hard_delete_scoped :
  deleteHardTag "u2" "t1" sample_world = (false, sample_world)
  ∧ deleteHardTag "u1" "t9" sample_world = (false, sample_world)
  ∧ (deleteHardTag "u1" "t1" sample_world).1 = true.
Proof. intros. split_and!; vm_compute; reflexivity. Qed.

(** Two racing writes on different fields: the record ends with the later
    timestamp and the later tag in both orders, but keeps the earlier
    call's [encKey] only when that call arrived first. *)
Example scenario_race_on_different_fields :
  let r := race sample_clock "u1" "t1"
             (obj [("encKey", Some (VStr "K1"))]) (rename "b")
             150 200 sample_world in
  (tagModel (first_low r) !! 0%nat) ≫= (.!! "encKey") = Some (VStr "K1")
  ∧ (tagModel (first_high r) !! 0%nat) ≫= (.!! "encKey") = Some (VStr "k")
  ∧ (tagModel (first_low r) !! 0%nat) ≫= (.!! "tag") = Some (VStr "b")
  ∧ (tagModel (first_high r) !! 0%nat) ≫= (.!! "tag") = Some (VStr "b")
  ∧ (tagModel (first_low r) !! 0%nat) ≫= (.!! "updateTs")
    = Some (VNum 200)
  ∧ (tagModel (first_high r) !! 0%nat) ≫= (.!! "updateTs")
    = Some (VNum 200).
Proof. intros. split_and!; vm_compute; reflexivity. Qed.
